(** * HubSpot resource orchestration (hubspot/__init__.py)

    A shallow embedding of the orchestration layer of the HubSpot source:
    property resolution ([fetch_props]), the live/archived record fetcher
    ([fetch_data_for_properties]), the stage-timing pivot
    ([pivot_stages_properties]), the chunking loop of [stages_timing] and the
    web-analytics event generator ([hubspot_events_for_objects]).

    Python strings are modelled as [string] (sequences of 8-bit characters;
    HubSpot property names are ASCII), [len] as [String.length], slices as
    [String.substring], dictionaries that are only looked up or compared as
    [gmap], dictionaries whose insertion order is observable as association
    lists, exceptions as a [result] type and generators as the trace of the
    fetches they issue and the pages they yield. *)

From Stdlib Require Import Ascii.
From stdpp Require Import gmap strings list sorting pretty.

Open Scope string_scope.
Open Scope list_scope.
Open Scope nat_scope.

(** ** Python values, exceptions and the builtins the source relies on *)

Module Py.

(** JSON-like scalars found in records, parameters and property
    descriptors. *)
Inductive value :=
  | VNone
  | VBool (b : bool)
  | VInt (z : Z)
  | VStr (s : string).

#[global] Instance value_eq_dec : EqDecision value.
Proof. solve_decision. Defined.

(** [v is not None] *)
Definition is_not_none (v : value) : bool :=
  match v with VNone => false | _ => true end.

(** [str(v)] *)
Definition str (v : value) : string :=
  match v with
  | VNone => "None"
  | VBool true => "True"
  | VBool false => "False"
  | VInt z => pretty z
  | VStr s => s
  end.

Inductive exn :=
  | TypeError
  | IndexError
  | KeyError (key : string)
  | ValueError (msg : string).

Inductive result (A : Type) :=
  | Ok (a : A)
  | Raise (e : exn).
Arguments Ok {A} a.
Arguments Raise {A} e.

Definition bind {A B} (r : result A) (k : A → result B) : result B :=
  match r with
  | Ok a => k a
  | Raise e => Raise e
  end.

(** Evaluate [f] on the elements from left to right, stopping at the first
    exception: a list comprehension whose body may raise. *)
Fixpoint map_result {A B} (f : A → result B) (l : list A) : result (list B) :=
  match l with
  | [] => Ok []
  | x :: l' =>
      bind (f x) (λ y, bind (map_result f l') (λ ys, Ok (y :: ys)))
  end.

(** [s.startswith(p)] *)
Definition startswith (s p : string) : bool := String.prefix p s.

(** [s[i : i + n]] for [0 <= i]: the slice stops at the end of [s]. *)
Definition slice (s : string) (i n : nat) : string := String.substring i n s.

(** [sep.join(parts)] *)
Definition join (sep : string) (parts : list string) : string :=
  String.concat sep parts.

(** The scan behind [s.split(sep)] for a non-empty [sep]: occurrences are
    found left to right and do not overlap.  [skip] counts the characters of
    the occurrence just found that are still to be passed over.  The result
    is the token being read and the tokens after it. *)
Fixpoint split_scan (sep : string) (skip : nat) (s : string)
  : string * list string :=
  match s with
  | EmptyString => (EmptyString, [])
  | String c s' =>
      match skip with
      | S k => split_scan sep k s'
      | O =>
          if String.prefix sep s then
            let '(t, ts) := split_scan sep (String.length sep - 1) s' in
            (EmptyString, t :: ts)
          else
            let '(t, ts) := split_scan sep 0 s' in
            (String c t, ts)
      end
  end.

Definition split_nonempty (sep s : string) : list string :=
  let '(t, ts) := split_scan sep 0 s in t :: ts.

(** [s.split(sep)]: an empty separator raises [ValueError]. *)
Definition split (s sep : string) : result (list string) :=
  if decide (sep = "") then Raise (ValueError "empty separator")
  else Ok (split_nonempty sep s).

(** [l[i]] *)
Definition index {A} (l : list A) (i : nat) : result A :=
  match l !! i with
  | Some x => Ok x
  | None => Raise IndexError
  end.

(** [l[:-1]] *)
Definition drop_last {A} (l : list A) : list A := removelast l.

(** A dictionary in insertion order: keys are pairwise distinct in every
    dictionary built by the operations below. *)
Definition dict := list (string * value).

(** [d.get(k)] ([None] when the key is absent) *)
Fixpoint dict_get (k : string) (d : dict) : option value :=
  match d with
  | [] => None
  | (k', v) :: d' => if decide (k = k') then Some v else dict_get k d'
  end.

(** [k in d] *)
Definition dict_mem (k : string) (d : dict) : bool :=
  match dict_get k d with Some _ => true | None => false end.

(** [d[k] = v]: an existing key keeps its position. *)
Fixpoint dict_set (k : string) (v : value) (d : dict) : dict :=
  match d with
  | [] => [(k, v)]
  | (k', v') :: d' =>
      if decide (k = k') then (k, v) :: d' else (k', v') :: dict_set k v d'
  end.

(** The dictionary left by [d.pop(k)]. *)
Definition dict_remove (k : string) (d : dict) : dict :=
  List.filter (λ kv, if decide (kv.1 = k) then false else true) d.

(** [d.update(other)] *)
Definition dict_update (d other : dict) : dict :=
  fold_left (λ acc kv, dict_set kv.1 kv.2 acc) other d.

(** A dictionary display [{k1: v1, k2: v2, ...}]. *)
Definition dict_of (items : list (string * value)) : dict :=
  dict_update [] items.

(** [d1 == d2] for dictionaries: same keys, same values, in any order. *)
Definition dict_eq (d1 d2 : dict) : Prop :=
  ∀ k, dict_get k d1 = dict_get k d2.

End Py.

Import Py.

#[global] Instance result_ret : MRet result := @Ok.
#[global] Instance result_bind : MBind result := λ A B k r, bind r k.

(** ** hubspot/settings.py *)

Module Settings.

Definition CRM_OBJECT_ENDPOINTS : gmap string string :=
  list_to_map
    [ ("contact",
       "/crm/v3/objects/contacts?associations=deals,products,tickets,quotes");
      ("company",
       "/crm/v3/objects/companies?associations=contacts,deals,products,tickets,quotes");
      ("deal", "/crm/v3/objects/deals");
      ("product", "/crm/v3/objects/products");
      ("ticket", "/crm/v3/objects/tickets");
      ("quote", "/crm/v3/objects/quotes");
      ("owner", "/crm/v3/owners/") ].

(** [WEB_ANALYTICS_EVENTS_ENDPOINT.format(objectType=.., objectId=..,
    occurredAfter=.., occurredBefore=..)] *)
Definition WEB_ANALYTICS_EVENTS_ENDPOINT
  (objectType objectId occurredAfter occurredBefore : string) : string :=
  "/events/v3/events?objectType=" +:+ objectType +:+
  "&objectId=" +:+ objectId +:+
  "&occurredAfter=" +:+ occurredAfter +:+
  "&occurredBefore=" +:+ occurredBefore +:+ "&sort=-occurredAt".

(** [ALL = [{"properties": "All"}]] *)
Definition ALL : list (gmap string value) := [ {[ "properties" := VStr "All" ]} ].

Definition SOFT_DELETE_KEY : string := "is_deleted".
Definition ARCHIVED_PARAM : gmap string value := {[ "archived" := VBool true ]}.
Definition STAGE_PROPERTY_PREFIX : string := "hs_date_entered_".
Definition MAX_PROPS_LENGTH : nat := 2000.

End Settings.

Import Settings.

(** ** Generators as traces *)

(** The dictionary of query parameters of a request and the context
    dictionary handed to the fetch primitive. *)
Record request := Request {
  req_endpoint : string;
  req_params : gmap string value;
  req_context : option dict
}.

Definition page := list dict.

(** What a generator does while it is driven: it calls the fetch primitive
    and it yields pages. *)
Inductive event :=
  | EvFetch (r : request)
  | EvYield (p : page).

(** How the run of a generator ended: it returned, it raised, or (for the
    loop of [stages_timing], run with a bound on its iterations) it is still
    inside the loop when the bound is reached. *)
Inductive ending :=
  | Returned
  | Raised (e : exn)
  | Pending.

Definition gen : Type := list event * ending.

(** [yield from g1] followed by the statements [g2]. *)
Definition gen_then (g1 g2 : gen) : gen :=
  match g1.2 with
  | Returned => (g1.1 ++ g2.1, g2.2)
  | _ => g1
  end.

Definition yielded (t : list event) : list page :=
  omap (λ e, match e with EvYield p => Some p | EvFetch _ => None end) t.

Definition fetches (t : list event) : list request :=
  omap (λ e, match e with EvFetch r => Some r | EvYield _ => None end) t.

(** The records of a run, in the order in which they are emitted. *)
Definition records (t : list event) : list dict := concat (yielded t).

(** ** hubspot/__init__.py *)

Section Hubspot.

(** The HTTP side of [helpers.fetch_data]: the pages of flattened records
    the API returns for an endpoint and its query parameters. *)
Variable api_pages : string → gmap string value → list page.

(** [helpers._get_property_names(api_key, object_type)]: the property
    catalog of an object type. *)
Variable _get_property_names : string → list string.

(** Modelled from the spec: [helpers.fetch_data] is not part of the sources
    at hand.  Following sections 4.3 and 3 ("tag every record from it with
    provenance", "downstream records carry this as an is_deleted field"), it
    yields the pages of the paging primitive in the order received, after
    merging the context dictionary, when one is given, into every record. *)
Definition fetch_data (endpoint : string) (params : gmap string value)
  (context : option dict) : gen :=
  let tag (r : dict) :=
    match context with
    | Some ctx => dict_update r ctx
    | None => r
    end in
  (EvFetch (Request endpoint params context)
     :: map (λ p, EvYield (map tag p)) (api_pages endpoint params),
   Returned).

Definition extract_properties_list (props : option (list (gmap string value)))
  : result (list value) :=
  match props with
  | None => Raise TypeError
  | Some l => Ok (map (λ prop, default VNone (prop !! "name")) l)
  end.

Definition fetch_data_for_properties (props : string) (object_type : string)
  (soft_delete : bool) : gen :=
  let params : gmap string value :=
    <["limit" := VInt 100]> {[ "properties" := VStr props ]} in
  let context :=
    if soft_delete then Some [(SOFT_DELETE_KEY, VBool false)] else None in
  match CRM_OBJECT_ENDPOINTS !! object_type with
  | None => ([], Raised (KeyError object_type))
  | Some endpoint =>
      gen_then (fetch_data endpoint params context)
        (if soft_delete then
           fetch_data endpoint (ARCHIVED_PARAM ∪ params)
             (Some [(SOFT_DELETE_KEY, VBool true)])
         else ([], Returned))
  end.

(** [{k: v for k, v in record.items() if v is not None}] *)
Definition record_not_null (record : dict) : dict :=
  List.filter (λ kv, is_not_none kv.2) record.

(** The row built for the property [kv] of a record whose id is
    [id_val]. *)
Definition stage_row (property_prefix id_prop : string) (id_val : value)
  (kv : string * value) : result dict :=
  parts ← split kv.1 property_prefix;
  stage ← index parts 1;
  Ok (dict_of [(id_prop, id_val); (property_prefix, kv.2);
               ("stage", VStr stage)]).

(** One iteration of the loop over [data]: the rows added to [new_data]. *)
Definition pivot_record (property_prefix id_prop : string) (record : dict)
  : result (list dict) :=
  let record_not_null := record_not_null record in
  if negb (dict_mem id_prop record_not_null) then Ok []
  else
    let id_val := default VNone (dict_get id_prop record_not_null) in
    let record_not_null := dict_remove id_prop record_not_null in
    map_result (stage_row property_prefix id_prop id_val)
      (List.filter (λ kv, startswith kv.1 property_prefix) record_not_null).

Fixpoint pivot_stages_properties_with (property_prefix id_prop : string)
  (data : page) : result (list dict) :=
  match data with
  | [] => Ok []
  | record :: data' =>
      rows ← pivot_record property_prefix id_prop record ;
      rest ← pivot_stages_properties_with property_prefix id_prop data' ;
      Ok (rows ++ rest)
  end.

(** [pivot_stages_properties(data)] with the default prefix and id field. *)
Definition pivot_stages_properties (data : page) : result (list dict) :=
  pivot_stages_properties_with STAGE_PROPERTY_PREFIX "id" data.

(** [for data in g: yield pivot_stages_properties(data)] *)
Fixpoint pivot_events (t : list event) (e : ending) : gen :=
  match t with
  | [] => ([], e)
  | EvFetch r :: t' =>
      let g := pivot_events t' e in (EvFetch r :: g.1, g.2)
  | EvYield data :: t' =>
      match pivot_stages_properties data with
      | Ok rows => let g := pivot_events t' e in (EvYield rows :: g.1, g.2)
      | Raise x => ([], Raised x)
      end
  end.

(** The chunk the loop of [stages_timing] takes when its cursor is [idx]. *)
Definition props_part (props : string) (idx : nat) : string :=
  if String.length props - idx <? MAX_PROPS_LENGTH then
    join "," (drop_last (split_nonempty "," (slice props idx MAX_PROPS_LENGTH)))
  else slice props idx MAX_PROPS_LENGTH.

(** The [while] loop of [stages_timing], run for at most [fuel]
    iterations. *)
Fixpoint stages_loop (fuel : nat) (object_type : string) (soft_delete : bool)
  (props : string) (idx : nat) : gen :=
  if idx <? String.length props then
    match fuel with
    | O => ([], Pending)
    | S fuel' =>
        let part := props_part props idx in
        let g := fetch_data_for_properties part object_type soft_delete in
        gen_then (pivot_events g.1 g.2)
          (stages_loop fuel' object_type soft_delete props
             (idx + String.length part))
    end
  else ([], Returned).

Definition stage_props (object_type : string) : string :=
  let all_properties := _get_property_names object_type in
  let date_entered_properties :=
    List.filter (λ prop, startswith prop STAGE_PROPERTY_PREFIX) all_properties in
  join "," date_entered_properties.

Definition stages_timing (fuel : nat) (object_type : string)
  (soft_delete : bool) : gen :=
  stages_loop fuel object_type soft_delete (stage_props object_type) 0.

(** The chunks the loop accepts, and whether it has left the loop within
    [fuel] iterations: the cursor arithmetic of [stages_timing] alone. *)
Fixpoint chunk_plan (fuel : nat) (props : string) (idx : nat)
  : list string * bool :=
  if idx <? String.length props then
    match fuel with
    | O => ([], false)
    | S fuel' =>
        let part := props_part props idx in
        let r := chunk_plan fuel' props (idx + String.length part) in
        (part :: r.1, r.2)
    end
  else ([], true).

(** [sorted(list(set(props)))] followed by [",".join(..)].  The elements
    must all be strings: [sorted] raises [TypeError] when it compares a
    string or [None] with a value of another type, and [join] raises it for
    any element that is not a string, so a list with an element that is not
    a string never gets past these two calls.  For strings the result is the
    list of the distinct elements in increasing code-point order, whatever
    the iteration order of the set. *)
Definition as_str (v : value) : result string :=
  match v with
  | VStr s => Ok s
  | _ => Raise TypeError
  end.

Definition sorted_set (props : list value) : result (list string) :=
  names ← map_result as_str props;
  Ok (merge_sort String.le (elements (list_to_set names : gset string))).

Definition too_long_message (props : string) : string :=
  "Your request to Hubspot is too long to process. " +:+
  "Maximum allowed query length is " +:+ pretty MAX_PROPS_LENGTH +:+
  " symbols, while " +:+
  "your list of properties `" +:+ slice props 0 200 +:+ "`... is " +:+
  pretty (String.length props) +:+ " " +:+
  "symbols long. Use the `props` argument of the resource to " +:+
  "set the list of properties to extract from the endpoint.".

(** The list [props] holds before it is sorted and joined. *)
Definition collect_props (object_type : string)
  (props : option (list (gmap string value))) (include_custom_props : bool)
  : result (list value) :=
  props ← (if decide (props = Some ALL)
           then Ok (map VStr (_get_property_names object_type))
           else extract_properties_list props);
  if include_custom_props then
    let all_props := _get_property_names object_type in
    let custom_props :=
      List.filter (λ prop, negb (startswith prop "hs_")) all_props in
    Ok (props ++ map VStr custom_props)
  else Ok props.

(** The string [props] holds when its length is checked. *)
Definition resolved_props (object_type : string)
  (props : option (list (gmap string value))) (include_custom_props : bool)
  : result string :=
  props ← collect_props object_type props include_custom_props;
  names ← sorted_set props;
  Ok (join "," names).

Definition fetch_props (object_type : string)
  (props : option (list (gmap string value))) (include_custom_props : bool)
  : result string :=
  props ← resolved_props object_type props include_custom_props;
  if MAX_PROPS_LENGTH <? String.length props then
    Raise (ValueError (too_long_message props))
  else Ok props.

(** [urllib.parse.quote] *)
Variable quote : string → string.

(** [occurred_at.last_value]: the cursor the incremental helper of the
    loading framework reports once the pages yielded so far have gone
    through it. *)
Variable last_value : list page → string.

(** The generator [get_web_analytics_events] of
    [hubspot_events_for_objects]; [seen] are the pages yielded before the
    ids still to be visited, [end_date] is the time taken when the resource
    is created.  The fetch has no query parameters of its own. *)
Fixpoint get_web_analytics_events (object_type end_date : string)
  (seen : list page) (object_ids : list string) : gen :=
  match object_ids with
  | [] => ([], Returned)
  | object_id :: object_ids' =>
      let g :=
        fetch_data
          (WEB_ANALYTICS_EVENTS_ENDPOINT object_type object_id
             (quote (last_value seen)) (quote end_date))
          ∅ None in
      gen_then g
        (get_web_analytics_events object_type end_date
           (seen ++ yielded g.1) object_ids')
  end.

(** [table_name=lambda e: name + "_" + str(e["eventType"])] with
    [name = object_type + "_events"]. *)
Definition table_name (object_type : string) (e : dict) : result string :=
  let name := object_type +:+ "_events" in
  match dict_get "eventType" e with
  | Some v => Ok (name +:+ "_" +:+ str v)
  | None => Raise (KeyError "eventType")
  end.

End Hubspot.

(** Modelled from the spec: the dispatch of yielded records to output
    streams is done by the loading framework, outside the sources at hand.
    Following section 4.5 ("routing key is computed per-record"), every
    record goes, in the order yielded, to the stream its table name
    designates. *)
Definition route (object_type : string) (rs : list dict)
  : result (list (string * dict)) :=
  map_result (λ e, t ← table_name object_type e; Ok (t, e)) rs.

(** The records a stream receives, in order. *)
Definition stream (name : string) (routed : list (string * dict)) : list dict :=
  map snd (List.filter (λ te, bool_decide (te.1 = name)) routed).

(** ** The resources built on the resolver and the fetcher *)

Module Tables.

(** [OBJECT_TYPE_SINGULAR], in the order of the source. *)
Definition OBJECT_TYPE_SINGULAR : list (string * string) :=
  [ ("companies", "company"); ("contacts", "contact"); ("deals", "deal");
    ("tickets", "ticket"); ("products", "product"); ("quotes", "quote");
    ("owners", "owner") ].

(** [d.get(k)] and [d[k] = v] for a dictionary from strings to strings. *)
Fixpoint assoc_get (k : string) (d : list (string * string)) : option string :=
  match d with
  | [] => None
  | (k', v) :: d' => if decide (k = k') then Some v else assoc_get k d'
  end.

Fixpoint assoc_set (k v : string) (d : list (string * string))
  : list (string * string) :=
  match d with
  | [] => [(k, v)]
  | (k', v') :: d' =>
      if decide (k = k') then (k, v) :: d' else (k', v') :: assoc_set k v d'
  end.

(** [OBJECT_TYPE_PLURAL = {v: k for k, v in OBJECT_TYPE_SINGULAR.items()}] *)
Definition OBJECT_TYPE_PLURAL : list (string * string) :=
  fold_left (λ acc kv, assoc_set kv.2 kv.1 acc) OBJECT_TYPE_SINGULAR [].

(** [ALL_OBJECTS = OBJECT_TYPE_PLURAL.keys()] *)
Definition ALL_OBJECTS : list string := map fst OBJECT_TYPE_PLURAL.

(** [PROPERTIES_CONFIG_KEY.format(name)] *)
Definition PROPERTIES_CONFIG_KEY (name : string) : string :=
  "sources.hubspot." +:+ name +:+ ".properties".

End Tables.

Import Tables.

(** The truth value of a scalar in a condition. *)
Definition truthy (v : value) : bool :=
  match v with
  | VNone => false
  | VBool b => b
  | VInt z => negb (z =? 0)%Z
  | VStr s => negb (bool_decide (s = ""))
  end.

(** [col.get("add_property_label", False)] as a condition. *)
Definition flagged (col : gmap string value) : bool :=
  truthy (default (VBool false) (col !! "add_property_label")).

(** The label lookup made for a well-formed entry of the properties
    list. *)
Definition lookup_of (property_info : dict) : value * value :=
  (default VNone (dict_get "object_type" property_info),
   default VNone (dict_get "property_name" property_info)).

Section Resources.

Variable api_pages : string → gmap string value → list page.
Variable _get_property_names : string → list string.

(** [dlt.config.get(key)]: the list of property descriptors configured
    under a key, if any. *)
Variable config : string → option (list (gmap string value)).

(** [crm_objects(object_type, api_key, props, include_custom_props,
    archived)]: the properties are resolved when the generator is first
    driven, before anything is fetched. *)
Definition crm_objects (object_type : string)
  (props : option (list (gmap string value)))
  (include_custom_props archived : bool) : gen :=
  match fetch_props _get_property_names object_type props include_custom_props with
  | Raise e => ([], Raised e)
  | Ok props => fetch_data_for_properties api_pages props object_type archived
  end.

Definition resource_template (entity : string)
  (properties : option (list (gmap string value)))
  (include_custom_props soft_delete : bool) : gen :=
  crm_objects entity properties include_custom_props soft_delete.


(** The inner loop of [get_properties_with_labels_from_config]: the entries
    appended for the columns of one object type. *)
Definition labelled_columns (object_type : string)
  (object_cols : list (gmap string value)) : result (list dict) :=
  map_result
    (λ col : gmap string value,
       match col !! "name" with
       | Some name =>
           Ok (dict_of [("object_type", VStr object_type);
                        ("property_name", name)])
       | None => Raise (KeyError "name")
       end)
    (List.filter flagged object_cols).

Definition get_properties_with_labels_from_config : result (list dict) :=
  lists ←
    map_result
      (λ object_type,
         match assoc_get object_type OBJECT_TYPE_PLURAL with
         | None => Raise (KeyError object_type)
         | Some plural =>
             let object_cols :=
               match config (PROPERTIES_CONFIG_KEY plural) with
               | Some (col :: cols) => col :: cols
               | _ => []
               end in
             labelled_columns object_type object_cols
         end)
      ALL_OBJECTS;
  Ok (concat lists).

(** [get_properties_description(properties_list)]: the label lookups
    [(object_type, property_name)] made, in order, and how the generator
    ends. *)
Fixpoint get_properties_description (properties_list : list dict)
  : list (value * value) * ending :=
  match properties_list with
  | [] => ([], Returned)
  | property_info :: rest =>
      match dict_get "object_type" property_info with
      | None => ([], Raised (KeyError "object_type"))
      | Some object_type =>
          match dict_get "property_name" property_info with
          | None => ([], Raised (KeyError "property_name"))
          | Some property_name =>
              let r := get_properties_description rest in
              ((object_type, property_name) :: r.1, r.2)
          end
      end
  end.

(** [hubspot_properties(properties_list)] *)
Definition hubspot_properties (properties_list : option (list dict))
  : list (value * value) * ending :=
  match properties_list with
  | Some (info :: infos) => get_properties_description (info :: infos)
  | _ =>
      match get_properties_with_labels_from_config with
      | Ok l => get_properties_description l
      | Raise e => ([], Raised e)
      end
  end.

End Resources.

(** ** Sample inputs *)

(** A deal pipeline with the default stage [closedwon], 195 custom stages
    with the numeric ids 100 to 294 and two more default stages: a catalog
    whose joined stage properties are 4000 characters long. *)
Definition sample_catalog (object_type : string) : list string :=
  ["amount"; "hs_date_entered_closedwon"]
  ++ map (λ n : nat, "hs_date_entered_" +:+ pretty n) (seq 100 195)
  ++ ["hs_date_entered_appointmentscheduled";
      "hs_date_entered_presentationscheduled"; "hs_object_id"].

(** A catalog with two stage properties. *)
Definition small_catalog (object_type : string) : list string :=
  ["amount"; "hs_date_entered_appointmentscheduled";
   "hs_date_entered_closedwon"].

(** An API that answers every request with one page of two deals. *)
Definition sample_api (endpoint : string) (params : gmap string value)
  : list page :=
  [[ [("id", VStr "1"); ("hs_date_entered_closedwon", VStr "2024-01-01")];
     [("id", VStr "2"); ("hs_date_entered_closedwon", VNone)] ]].

(** An events API: two pages for the contact [A], one page for any other
    object id. *)
Definition sample_events (endpoint : string) (params : gmap string value)
  : list page :=
  let ev (i ty : string) : dict :=
    [("id", VStr i); ("eventType", VStr ty);
     ("occurredAt", VStr "2024-02-11T08:00:00Z")] in
  if String.prefix "/events/v3/events?objectType=contact&objectId=A&" endpoint
  then [[ev "a1" "click"; ev "a2" "view"]; [ev "a3" "view"; ev "a4" "click"]]
  else [[ev "b1" "view"; ev "b2" "click"]].

(** * Properties *)

(** ** Strings: slices, [split] and [join] *)

Section StringFacts.

Lemma length_app (s t : string) :
  String.length (s +:+ t) = String.length s + String.length t.
Proof. induction s as [|c s IH]; simpl; [done | by rewrite IH]. Qed.

Lemma length_slice (s : string) (i n : nat) :
  String.length (slice s i n) = n `min` (String.length s - i).
Proof.
  unfold slice. revert i n.
  induction s as [|c s IH]; intros [|i] [|n]; simpl; try done;
    rewrite IH; lia.
Qed.

Lemma split_scan_comma (c : ascii) (s : string) :
  split_scan "," 0 (String c s) =
    if decide (c = ","%char) then ("", (split_scan "," 0 s).1 :: (split_scan "," 0 s).2)
    else (String c (split_scan "," 0 s).1, (split_scan "," 0 s).2).
Proof.
  cbn [split_scan String.prefix String.length Nat.sub].
  destruct (split_scan "," 0 s) as [t ts] eqn:E.
  destruct (Ascii.ascii_dec "," c) as [->|Hne].
  - rewrite decide_True by done.
    destruct s; simpl in *; by rewrite ?E.
  - rewrite decide_False by congruence. done.
Qed.

Lemma join_cons2 (sep x y : string) (l : list string) :
  join sep (x :: y :: l) = x +:+ sep +:+ join sep (y :: l).
Proof. done. Qed.

(** Joining what [split] returns gives the string back. *)
Lemma join_split_comma (s : string) : join "," (split_nonempty "," s) = s.
Proof.
  unfold split_nonempty.
  induction s as [|c s IH]; [done|].
  rewrite split_scan_comma.
  destruct (split_scan "," 0 s) as [t ts] eqn:E. simpl fst; simpl snd.
  case_decide as Hc.
  - subst c. by rewrite join_cons2, IH.
  - destruct ts as [|t' ts].
    + unfold join in *. simpl in *. by rewrite IH.
    + rewrite join_cons2. rewrite join_cons2 in IH.
      rewrite <- IH. done.
Qed.

Lemma split_nonempty_not_nil (sep s : string) : split_nonempty sep s ≠ [].
Proof. unfold split_nonempty. by destruct (split_scan sep 0 s). Qed.

(** Dropping the last token of a non-empty joined string shortens it. *)
Lemma length_join_drop_last (l : list string) :
  0 < String.length (join "," l) →
  String.length (join "," (drop_last l)) < String.length (join "," l).
Proof.
  unfold drop_last.
  induction l as [|x [|y l] IH]; intros Hpos.
  - simpl in Hpos. lia.
  - simpl in *. lia.
  - change (removelast (x :: y :: l)) with (x :: removelast (y :: l)).
    rewrite join_cons2, !length_app. simpl (String.length ",").
    destruct (removelast (y :: l)) as [|z l'] eqn:E.
    + simpl. lia.
    + rewrite join_cons2, !length_app. simpl (String.length ",").
      destruct (decide (0 < String.length (join "," (y :: l)))) as [Hp|Hn].
      * specialize (IH Hp). lia.
      * destruct l as [|y' l]; [done|].
        rewrite join_cons2, !length_app in Hn. simpl in Hn. lia.
Qed.

End StringFacts.

(** ** The chunking loop of [stages_timing] *)

Section Chunking.

Lemma length_props_part_full (props : string) (idx : nat) :
  MAX_PROPS_LENGTH ≤ String.length props - idx →
  String.length (props_part props idx) = MAX_PROPS_LENGTH.
Proof.
  intros H. unfold props_part.
  destruct (Nat.ltb_spec (String.length props - idx) MAX_PROPS_LENGTH); [lia|].
  rewrite length_slice. lia.
Qed.

Lemma length_props_part_tail (props : string) (idx : nat) :
  0 < String.length props - idx < MAX_PROPS_LENGTH →
  String.length (props_part props idx) < String.length props - idx.
Proof.
  intros H. unfold props_part.
  destruct (Nat.ltb_spec (String.length props - idx) MAX_PROPS_LENGTH); [|lia].
  pose proof (length_slice props idx MAX_PROPS_LENGTH) as Hs.
  pose proof (length_join_drop_last
    (split_nonempty "," (slice props idx MAX_PROPS_LENGTH))) as Hd.
  rewrite join_split_comma in Hd. lia.
Qed.

(** Every chunk fits the request limit. *)
Lemma length_props_part_le (props : string) (idx : nat) :
  idx < String.length props →
  String.length (props_part props idx) ≤ MAX_PROPS_LENGTH.
Proof.
  intros H.
  destruct (decide (MAX_PROPS_LENGTH ≤ String.length props - idx)).
  - by rewrite length_props_part_full.
  - pose proof (length_props_part_tail props idx). lia.
Qed.

(** Once the tail left after the cursor is not a whole number of windows,
    the cursor never reaches the end of the string. *)
Lemma chunk_plan_stuck (props : string) (fuel idx : nat) :
  (String.length props - idx) `mod` MAX_PROPS_LENGTH ≠ 0 →
  (chunk_plan fuel props idx).2 = false.
Proof.
  revert idx. induction fuel as [|fuel IH]; intros idx Hmod.
  - simpl. destruct (Nat.ltb_spec idx (String.length props)); [done|].
    replace (String.length props - idx) with 0 in Hmod by lia. done.
  - simpl. destruct (Nat.ltb_spec idx (String.length props)) as [Hlt|Hge].
    + simpl. apply IH.
      destruct (decide (MAX_PROPS_LENGTH ≤ String.length props - idx)) as [Hf|Hf].
      * rewrite length_props_part_full by done.
        replace (String.length props - idx)
          with ((String.length props - (idx + MAX_PROPS_LENGTH))
                + 1 * MAX_PROPS_LENGTH) in Hmod by lia.
        by rewrite Nat.Div0.mod_add in Hmod.
      * pose proof (length_props_part_tail props idx ltac:(lia)).
        rewrite Nat.mod_small by lia. lia.
    + replace (String.length props - idx) with 0 in Hmod by lia. done.
Qed.

End Chunking.

(** ** The stage-timing pivot *)

Section Pivot.

Lemma split_of_prefixed (sep s : string) :
  sep ≠ "" → String.prefix sep s = true →
  ∃ t ts, split_nonempty sep s = "" :: t :: ts.
Proof.
  intros Hsep Hpre. unfold split_nonempty.
  destruct s as [|c s].
  - destruct sep; [done | discriminate].
  - cbn [split_scan]. rewrite Hpre.
    destruct (split_scan sep (String.length sep - 1) s) as [t ts]. eauto.
Qed.

Lemma stage_row_ok (id_val : value) (kv : string * value) :
  startswith kv.1 STAGE_PROPERTY_PREFIX = true →
  ∃ stage,
    stage_row STAGE_PROPERTY_PREFIX "id" id_val kv =
      Ok [("id", id_val); (STAGE_PROPERTY_PREFIX, kv.2); ("stage", VStr stage)].
Proof.
  intros Hpre. unfold stage_row, split.
  destruct (split_of_prefixed STAGE_PROPERTY_PREFIX kv.1) as (t & ts & E);
    [done | done |].
  rewrite decide_False by done. exists t.
  cbn [mbind result_bind bind]. rewrite E. reflexivity.
Qed.

Lemma stage_rows_ok (id_val : value) (l : list (string * value)) :
  Forall (λ kv, startswith kv.1 STAGE_PROPERTY_PREFIX = true) l →
  ∃ rows,
    map_result (stage_row STAGE_PROPERTY_PREFIX "id" id_val) l = Ok rows
    ∧ Forall (λ row, dict_get "id" row = Some id_val) rows.
Proof.
  induction 1 as [|kv l Hkv _ (rows & Hrows & Hid)].
  - exists []. by split.
  - destruct (stage_row_ok id_val kv Hkv) as (stage & Hrow).
    eexists. simpl. rewrite Hrow. simpl. rewrite Hrows. simpl.
    split; [done|]. by constructor.
Qed.

Lemma dict_get_filter (P : string * value → bool) (k : string) (v : value)
  (d : dict) :
  dict_get k (List.filter P d) = Some v → P (k, v) = true.
Proof.
  induction d as [|[k' v'] d IH]; simpl; [done|].
  destruct (P (k', v')) eqn:HP; [|done].
  simpl. case_decide; [|done]. by intros [= <-]; subst.
Qed.

Lemma record_not_null_idemp (record : dict) :
  record_not_null (record_not_null record) = record_not_null record.
Proof.
  unfold record_not_null.
  induction record as [|[k v] d IH]; simpl; [done|].
  destruct (is_not_none v) eqn:E; simpl; by rewrite ?E, ?IH.
Qed.

(** With the default prefix and id field one record never makes the pivot
    raise, and each of its rows carries the id of the record. *)
Lemma pivot_record_total (record : dict) :
  ∃ rows,
    pivot_record STAGE_PROPERTY_PREFIX "id" record = Ok rows
    ∧ Forall (λ row, ∃ v, dict_get "id" row = Some v ∧ v ≠ VNone) rows.
Proof.
  unfold pivot_record, dict_mem.
  destruct (dict_get "id" (record_not_null record)) as [v|] eqn:Hid; simpl.
  - destruct (stage_rows_ok v
      (List.filter (λ kv, startswith kv.1 STAGE_PROPERTY_PREFIX)
         (dict_remove "id" (record_not_null record)))) as (rows & Hrows & Hids).
    { apply Forall_forall. intros kv Hin. apply list_elem_of_In in Hin.
      by apply filter_In in Hin as [_ ?]. }
    exists rows. split; [done|].
    eapply Forall_impl; [exact Hids|]. intros row Hrow. exists v. split; [done|].
    apply dict_get_filter in Hid. by destruct v.
  - exists []. by split.
Qed.

Lemma pivot_record_not_null (record : dict) :
  pivot_record STAGE_PROPERTY_PREFIX "id" (record_not_null record) =
  pivot_record STAGE_PROPERTY_PREFIX "id" record.
Proof. unfold pivot_record. by rewrite record_not_null_idemp. Qed.

Lemma pivot_record_no_id (record : dict) :
  dict_mem "id" (record_not_null record) = false →
  pivot_record STAGE_PROPERTY_PREFIX "id" record = Ok [].
Proof. intros H. unfold pivot_record. by rewrite H. Qed.

Lemma pivot_record_no_stage (record : dict) :
  existsb (λ kv, startswith kv.1 STAGE_PROPERTY_PREFIX)
    (record_not_null record) = false →
  pivot_record STAGE_PROPERTY_PREFIX "id" record = Ok [].
Proof.
  intros H. unfold pivot_record.
  destruct (negb _); [done|].
  set (l := record_not_null record) in *. clearbody l.
  replace (List.filter _ (dict_remove "id" l)) with (@nil (string * value));
    [done|].
  unfold dict_remove.
  induction l as [|kv l IH]; simpl in *; [done|].
  apply orb_false_iff in H as [Hkv Hl].
  case_decide; simpl; rewrite ?Hkv; auto.
Qed.

Lemma pivot_stages_properties_total (data : page) :
  ∃ rows, pivot_stages_properties data = Ok rows.
Proof.
  unfold pivot_stages_properties.
  induction data as [|record data (rest & IH)]; simpl; [by eexists|].
  destruct (pivot_record_total record) as (rows & -> & _). simpl.
  rewrite IH. simpl. by eexists.
Qed.

End Pivot.

(** C8: with the default prefix and id field the pivot of a page never
    raises, and its rows are unchanged when the null-valued properties are
    removed from every record beforehand, when the records without an id
    among their non-null properties are left out, and when the records
    without a non-null stage-prefixed property are left out; every row
    carries a non-null id. *)
Theorem pivot_discards_nulls_and_unusable_records (data : page) :
  ∃ rows,
    pivot_stages_properties data = Ok rows
    ∧ pivot_stages_properties (map record_not_null data) = Ok rows
    ∧ pivot_stages_properties
        (List.filter (λ r, dict_mem "id" (record_not_null r)) data) = Ok rows
    ∧ pivot_stages_properties
        (List.filter
           (λ r, existsb (λ kv, startswith kv.1 STAGE_PROPERTY_PREFIX)
                   (record_not_null r)) data) = Ok rows
    ∧ Forall (λ row, ∃ v, dict_get "id" row = Some v ∧ v ≠ VNone) rows.
Proof.
  unfold pivot_stages_properties.
  induction data as [|record data (rest & IH1 & IH2 & IH3 & IH4 & IH5)].
  - exists []. by repeat split.
  - destruct (pivot_record_total record) as (rows & Hrows & Hids).
    exists (rows ++ rest). split_and!.
    + simpl. rewrite Hrows. simpl. by rewrite IH1.
    + simpl. rewrite pivot_record_not_null, Hrows. simpl. by rewrite IH2.
    + simpl. destruct (dict_mem "id" (record_not_null record)) eqn:Hid.
      * simpl. rewrite Hrows. simpl. by rewrite IH3.
      * rewrite pivot_record_no_id in Hrows by done.
        injection Hrows as <-. done.
    + simpl. destruct (existsb _ (record_not_null record)) eqn:Hst.
      * simpl. rewrite Hrows. simpl. by rewrite IH4.
      * rewrite pivot_record_no_stage in Hrows by done.
        injection Hrows as <-. done.
    + by apply Forall_app.
Qed.

(** The example of the specification: the null-valued stage column and
    [other] are dropped, the remaining stage column gives one row. *)
Example pivot_open_stage :
  pivot_stages_properties
    [[("id", VStr "1"); ("hs_date_entered_open", VStr "2024-01-01");
      ("hs_date_entered_closed", VNone); ("other", VNone)]]
  = Ok [[("id", VStr "1"); ("hs_date_entered_", VStr "2024-01-01");
         ("stage", VStr "open")]].
Proof. reflexivity. Qed.

(** C7: for a property whose name contains the prefix again after its
    start, the stage of the emitted row is the text between the first two
    occurrences of the prefix (here the empty string) and not the suffix
    [hs_date_entered_x] of the name. *)
Theorem pivot_stage_is_not_the_suffix :
  pivot_stages_properties
    [[("id", VStr "1");
      ("hs_date_entered_hs_date_entered_x", VStr "2024-01-01")]]
  = Ok [[("id", VStr "1"); ("hs_date_entered_", VStr "2024-01-01");
         ("stage", VStr "")]].
Proof. reflexivity. Qed.

(** ** The generator [stages_timing] *)

Section Stages.

Context (api_pages : string → gmap string value → list page).
Context (_get_property_names : string → list string).

Lemma fetches_app (t1 t2 : list event) :
  fetches (t1 ++ t2) = fetches t1 ++ fetches t2.
Proof. apply omap_app. Qed.

Lemma yielded_app (t1 t2 : list event) :
  yielded (t1 ++ t2) = yielded t1 ++ yielded t2.
Proof. apply omap_app. Qed.

Lemma gen_then_returned (t1 : list event) (g2 : gen) :
  gen_then (t1, Returned) g2 = (t1 ++ g2.1, g2.2).
Proof. done. Qed.

(** Pivoting the pages of a generator keeps its fetches and its ending. *)
Lemma pivot_events_total (t : list event) (e : ending) :
  ∃ t', pivot_events t e = (t', e) ∧ fetches t' = fetches t.
Proof.
  induction t as [|[r|data] t (t' & IH & Hf)]; cbn [pivot_events].
  - by exists [].
  - rewrite IH. exists (EvFetch r :: t'). split; [done|].
    change (r :: fetches t' = r :: fetches t). by rewrite Hf.
  - destruct (pivot_stages_properties_total data) as (rows & ->).
    rewrite IH. by exists (EvYield rows :: t').
Qed.

Lemma fetch_data_for_properties_returns (props object_type endpoint : string)
  (soft_delete : bool) :
  CRM_OBJECT_ENDPOINTS !! object_type = Some endpoint →
  (fetch_data_for_properties api_pages props object_type soft_delete).2
  = Returned.
Proof.
  intros H. unfold fetch_data_for_properties. rewrite H.
  by destruct soft_delete.
Qed.

(** For a known object type the generator leaves the loop exactly when the
    cursor arithmetic does. *)
Lemma stages_loop_ending (fuel : nat) (object_type endpoint props : string)
  (soft_delete : bool) (idx : nat) :
  CRM_OBJECT_ENDPOINTS !! object_type = Some endpoint →
  (stages_loop api_pages fuel object_type soft_delete props idx).2 =
    if (chunk_plan fuel props idx).2 then Returned else Pending.
Proof.
  intros Hep. revert idx.
  induction fuel as [|fuel IH]; intros idx; simpl;
    destruct (idx <? String.length props); try done.
  set (g := fetch_data_for_properties _ _ _ _).
  destruct (pivot_events_total g.1 g.2) as (t' & -> & _).
  unfold g. erewrite fetch_data_for_properties_returns by done.
  rewrite gen_then_returned. simpl. apply IH.
Qed.

(** The fetches of the generator are those made for the chunks of the
    plan, in order. *)
Lemma stages_loop_fetches (fuel : nat) (object_type endpoint props : string)
  (soft_delete : bool) (idx : nat) :
  CRM_OBJECT_ENDPOINTS !! object_type = Some endpoint →
  fetches (stages_loop api_pages fuel object_type soft_delete props idx).1 =
    flat_map
      (λ part,
         fetches
           (fetch_data_for_properties api_pages part object_type soft_delete).1)
      (chunk_plan fuel props idx).1.
Proof.
  intros Hep. revert idx.
  induction fuel as [|fuel IH]; intros idx; simpl;
    destruct (idx <? String.length props); try done.
  set (g := fetch_data_for_properties _ _ _ _).
  destruct (pivot_events_total g.1 g.2) as (t' & -> & Hf).
  unfold g at 1. erewrite fetch_data_for_properties_returns by done.
  rewrite gen_then_returned. simpl.
  rewrite fetches_app, Hf. f_equal. apply IH.
Qed.

End Stages.

(** C10: when no name of the catalog starts with [hs_date_entered_], the
    generator returns without having issued a fetch or yielded a page,
    whatever the bound on the iterations. *)
Theorem stages_timing_without_stage_properties
  (api_pages : string → gmap string value → list page)
  (_get_property_names : string → list string)
  (fuel : nat) (object_type : string) (soft_delete : bool) :
  Forall (λ prop, startswith prop STAGE_PROPERTY_PREFIX = false)
    (_get_property_names object_type) →
  let g :=
    stages_timing api_pages _get_property_names fuel object_type soft_delete in
  g = ([], Returned) ∧ fetches g.1 = [] ∧ records g.1 = [].
Proof.
  intros Hall g.
  assert (Hp : stage_props _get_property_names object_type = "").
  { unfold stage_props.
    induction Hall as [|prop l Hprop _ IH]; simpl; [done|]. by rewrite Hprop. }
  assert (Hg : g = ([], Returned)).
  { unfold g, stages_timing. rewrite Hp. by destruct fuel. }
  by rewrite Hg.
Qed.

Lemma stages_timing_without_stage_properties_witness :
  let g := stages_timing sample_api (λ _, ["amount"; "hs_object_id"]) 7
             "deal" true in
  g = ([], Returned) ∧ fetches g.1 = [] ∧ records g.1 = [].
Proof.
  apply (stages_timing_without_stage_properties sample_api
           (λ _, ["amount"; "hs_object_id"]) 7 "deal" true).
  repeat constructor.
Defined.

(** C2: for a catalog with two stage properties the loop of
    [stages_timing] is still running after any number of iterations: the
    first chunk drops the last property, every later chunk is empty and the
    cursor stays where it is. *)
Theorem stages_timing_never_returns
  (api_pages : string → gmap string value → list page)
  (fuel : nat) (soft_delete : bool) :
  (stages_timing api_pages small_catalog (S fuel) "deal" soft_delete).2
  = Pending
  ∧ chunk_plan (S fuel) (stage_props small_catalog "deal") 0
    = ("hs_date_entered_appointmentscheduled" :: repeat "" fuel, false).
Proof.
  split.
  - unfold stages_timing.
    erewrite stages_loop_ending by reflexivity.
    rewrite chunk_plan_stuck; [done|]. by vm_compute.
  - change (stage_props small_catalog "deal")
      with "hs_date_entered_appointmentscheduled,hs_date_entered_closedwon".
    set (props := "hs_date_entered_appointmentscheduled,hs_date_entered_closedwon").
    assert (Hstay : ∀ n, chunk_plan n props 36 = (repeat "" n, false)).
    { induction n as [|n IH]; [done|].
      change (chunk_plan (S n) props 36)
        with ("" :: (chunk_plan n props 36).1, (chunk_plan n props 36).2).
      by rewrite IH. }
    change (chunk_plan (S fuel) props 0)
      with ("hs_date_entered_appointmentscheduled"
              :: (chunk_plan fuel props 36).1, (chunk_plan fuel props 36).2).
    by rewrite Hstay.
Qed.

(** C1: for a catalog whose joined stage properties are 4000 characters
    long, the loop accepts the two raw windows of 2000 characters: the first
    ends inside the name [hs_date_entered_198], which no property of the
    catalog is called, the second starts with the rest of that name, and
    joining the two with a comma does not give the string back. *)
Theorem chunk_plan_cuts_property_names :
  let props := stage_props sample_catalog "deal" in
  String.length props = 4000
  ∧ chunk_plan 2 props 0 = ([slice props 0 2000; slice props 2000 2000], true)
  ∧ join "," [slice props 0 2000; slice props 2000 2000] ≠ props
  ∧ last (split_nonempty "," (slice props 0 2000)) = Some "hs_date_entere"
  ∧ head (split_nonempty "," (slice props 2000 2000)) = Some "d_198"
  ∧ ("hs_date_entere" ∉ sample_catalog "deal")
  ∧ ("d_198" ∉ sample_catalog "deal").
Proof.
  split_and!.
  - by vm_compute.
  - by vm_compute.
  - intros H. apply (f_equal String.length) in H.
    vm_compute in H. discriminate.
  - by vm_compute.
  - by vm_compute.
  - intros H. apply (bool_decide_eq_true_2 _) in H. by vm_compute in H.
  - intros H. apply (bool_decide_eq_true_2 _) in H. by vm_compute in H.
Qed.

(** ** The record fetcher *)

Section Fetcher.

Context (api_pages : string → gmap string value → list page).

Lemma dict_get_set (k : string) (v : value) (d : dict) :
  dict_get k (dict_set k v d) = Some v.
Proof.
  induction d as [|[k' v'] d IH]; simpl.
  - by rewrite decide_True.
  - destruct (decide (k = k')) as [->|Hne]; simpl.
    + by rewrite decide_True.
    + by rewrite decide_False.
Qed.

Lemma yielded_fetch_data (endpoint : string) (params : gmap string value)
  (context : option dict) :
  yielded (fetch_data api_pages endpoint params context).1 =
    map (map (λ r, match context with
                   | Some ctx => dict_update r ctx
                   | None => r
                   end))
      (api_pages endpoint params).
Proof.
  unfold fetch_data. cbn [fst].
  change (yielded (EvFetch ?r :: ?t)) with (yielded t).
  induction (api_pages endpoint params) as [|p l IH]; [done|].
  cbn [map]. change (yielded (EvYield ?p :: ?t)) with (p :: yielded t).
  by rewrite IH.
Qed.

(** An object type without an endpoint makes the generator raise before it
    fetches or yields anything. *)
Lemma fetch_data_for_properties_unknown (props object_type : string)
  (soft_delete : bool) :
  CRM_OBJECT_ENDPOINTS !! object_type = None →
  fetch_data_for_properties api_pages props object_type soft_delete
  = ([], Raised (KeyError object_type)).
Proof. intros H. unfold fetch_data_for_properties. by rewrite H. Qed.

End Fetcher.

(** C5: in soft-delete mode the pages yielded are the pages of the live
    partition followed by the pages of the archived partition (the request
    with [archived] set); every record of the archived pages has
    [is_deleted] set to [True] and every record of the live pages has it set
    to [False]. *)
Theorem soft_delete_emits_archived_after_live
  (api_pages : string → gmap string value → list page)
  (props object_type endpoint : string) :
  CRM_OBJECT_ENDPOINTS !! object_type = Some endpoint →
  let g := fetch_data_for_properties api_pages props object_type true in
  let params : gmap string value :=
    <["limit" := VInt 100]> {[ "properties" := VStr props ]} in
  let live :=
    map (map (λ r, dict_update r [(SOFT_DELETE_KEY, VBool false)]))
      (api_pages endpoint params) in
  let archived :=
    map (map (λ r, dict_update r [(SOFT_DELETE_KEY, VBool true)]))
      (api_pages endpoint (<["archived" := VBool true]> params)) in
  g.2 = Returned
  ∧ yielded g.1 = live ++ archived
  ∧ records g.1 = concat live ++ concat archived
  ∧ Forall (λ r, dict_get SOFT_DELETE_KEY r = Some (VBool true))
      (concat archived)
  ∧ Forall (λ r, dict_get SOFT_DELETE_KEY r = Some (VBool false))
      (concat live).
Proof.
  intros Hep g params live archived.
  assert (Hparams : ARCHIVED_PARAM ∪ params = <["archived" := VBool true]> params).
  { unfold ARCHIVED_PARAM. by rewrite <- insert_union_singleton_l. }
  assert (Hy : yielded g.1 = live ++ archived).
  { unfold g, fetch_data_for_properties. rewrite Hep.
    fold params. rewrite Hparams.
    unfold gen_then. cbn [fetch_data fst snd].
    change (EvFetch ?r :: ?t ++ ?u) with ((EvFetch r :: t) ++ u).
    rewrite yielded_app.
    pose proof (yielded_fetch_data api_pages endpoint params
                  (Some [(SOFT_DELETE_KEY, VBool false)])) as H1.
    pose proof (yielded_fetch_data api_pages endpoint
                  (<["archived" := VBool true]> params)
                  (Some [(SOFT_DELETE_KEY, VBool true)])) as H2.
    unfold fetch_data in H1, H2. cbn [fst] in H1, H2.
    by rewrite H1, H2. }
  assert (Htag : ∀ (b : bool) (pages : list page),
            Forall (λ r, dict_get SOFT_DELETE_KEY r = Some (VBool b))
              (concat (map (map (λ r, dict_update r [(SOFT_DELETE_KEY, VBool b)]))
                         pages))).
  { intros b pages. apply Forall_concat, Forall_fmap, Forall_true.
    intros p. apply Forall_fmap, Forall_true. intros r.
    apply dict_get_set. }
  split_and!.
  - unfold g. by erewrite fetch_data_for_properties_returns.
  - done.
  - unfold records. by rewrite Hy, concat_app.
  - apply Htag.
  - apply Htag.
Qed.

Lemma soft_delete_emits_archived_after_live_witness :
  let g := fetch_data_for_properties sample_api "amount" "deal" true in
  g.2 = Returned
  ∧ records g.1 =
      [ [("id", VStr "1"); ("hs_date_entered_closedwon", VStr "2024-01-01");
         ("is_deleted", VBool false)];
        [("id", VStr "2"); ("hs_date_entered_closedwon", VNone);
         ("is_deleted", VBool false)];
        [("id", VStr "1"); ("hs_date_entered_closedwon", VStr "2024-01-01");
         ("is_deleted", VBool true)];
        [("id", VStr "2"); ("hs_date_entered_closedwon", VNone);
         ("is_deleted", VBool true)] ].
Proof.
  destruct (soft_delete_emits_archived_after_live sample_api "amount" "deal"
              "/crm/v3/objects/deals" eq_refl) as (Hend & _ & Hrec & _ & _).
  split; [exact Hend | exact Hrec].
Defined.

(** ** The event generator and the routing of its records *)

Section Events.

Context (api_pages : string → gmap string value → list page).
Context (quote : string → string) (last_value : list page → string).

Lemma app_assoc_string (a b c : string) : (a +:+ b) +:+ c = a +:+ b +:+ c.
Proof.
  induction a as [|x a IH]; [done|].
  change (String x ((a +:+ b) +:+ c) = String x (a +:+ b +:+ c)).
  by rewrite IH.
Qed.

Lemma get_web_analytics_events_returns (object_type end_date : string)
  (seen : list page) (object_ids : list string) :
  (get_web_analytics_events api_pages quote last_value object_type end_date
     seen object_ids).2 = Returned.
Proof.
  revert seen. induction object_ids as [|i ids IH]; intros seen; [done|].
  cbn [get_web_analytics_events]. unfold fetch_data.
  rewrite gen_then_returned. apply IH.
Qed.

(** The events of the ids of a list come out list order: those of a first
    part of the list before those of the rest. *)
Lemma get_web_analytics_events_app (object_type end_date : string)
  (seen : list page) (ids1 ids2 : list string) :
  let run := get_web_analytics_events api_pages quote last_value object_type
               end_date in
  (run seen (ids1 ++ ids2)).1 =
    (run seen ids1).1 ++ (run (seen ++ yielded (run seen ids1).1) ids2).1.
Proof.
  intros run. revert seen.
  induction ids1 as [|i ids1 IH]; intros seen.
  - cbn. by rewrite app_nil_r.
  - unfold run in *. cbn [app get_web_analytics_events].
    unfold fetch_data. rewrite !gen_then_returned. cbn [fst snd].
    rewrite IH, yielded_app, !app_assoc. done.
Qed.

Lemma route_by_event_type (object_type : string) (rs : list dict) :
  Forall (λ e, is_Some (dict_get "eventType" e)) rs →
  ∃ routed,
    route object_type rs = Ok routed
    ∧ map snd routed = rs
    ∧ Forall (λ te, ∃ v, dict_get "eventType" te.2 = Some v
                         ∧ te.1 = object_type +:+ "_events_" +:+ str v) routed
    ∧ ∀ ty,
        stream (object_type +:+ "_events_" +:+ ty) routed =
          List.filter
            (λ e, bool_decide (str <$> dict_get "eventType" e = Some ty)) rs.
Proof.
  induction 1 as [|e rs [v Hv] _ (routed & Hr & Hsnd & Hall & Hstream)].
  - exists []. by repeat split.
  - exists ((object_type +:+ "_events_" +:+ str v, e) :: routed).
    split_and!.
    + unfold route in *. cbn [map_result]. unfold table_name at 1.
      rewrite Hv. cbv zeta. rewrite app_assoc_string.
      cbn [mbind result_bind bind].
      by rewrite Hr.
    + cbn. by rewrite Hsnd.
    + constructor; [by exists v | done].
    + intros ty. unfold stream in *. cbn [List.filter fst].
      rewrite Hv. cbn [fmap option_fmap option_map].
      destruct (decide (str v = ty)) as [->|Hne].
      * rewrite !bool_decide_eq_true_2 by done. cbn. by rewrite Hstream.
      * rewrite !bool_decide_eq_false_2; [by rewrite Hstream | congruence |].
        intros Heq. by do 2 apply (inj (String.app _)) in Heq.
Qed.

End Events.

(** C6: the generator yields the events of the object ids in list order,
    those of [ids1] before those of [ids2]; when every event has an
    [eventType], each record goes to the stream named after the object type
    and its event type, so that the stream [<objectType>_events_<ty>]
    receives, in order, exactly the records whose event type reads [ty]. *)
Theorem events_are_routed_by_event_type
  (api_pages : string → gmap string value → list page)
  (quote : string → string) (last_value : list page → string)
  (object_type end_date : string) (seen : list page)
  (ids1 ids2 : list string) :
  let run := get_web_analytics_events api_pages quote last_value object_type
               end_date in
  let g := run seen (ids1 ++ ids2) in
  let g1 := run seen ids1 in
  let g2 := run (seen ++ yielded g1.1) ids2 in
  Forall (λ e, is_Some (dict_get "eventType" e)) (records g.1) →
  g.2 = Returned
  ∧ records g.1 = records g1.1 ++ records g2.1
  ∧ ∃ routed,
      route object_type (records g.1) = Ok routed
      ∧ map snd routed = records g.1
      ∧ Forall (λ te, ∃ v, dict_get "eventType" te.2 = Some v
                           ∧ te.1 = object_type +:+ "_events_" +:+ str v)
          routed
      ∧ ∀ ty,
          stream (object_type +:+ "_events_" +:+ ty) routed =
            List.filter
              (λ e, bool_decide (str <$> dict_get "eventType" e = Some ty))
              (records g1.1)
            ++ List.filter
                 (λ e, bool_decide (str <$> dict_get "eventType" e = Some ty))
                 (records g2.1).
Proof.
  intros run g g1 g2 Hall.
  assert (Hrec : records g.1 = records g1.1 ++ records g2.1).
  { unfold g, g1, g2, run, records.
    by rewrite get_web_analytics_events_app, yielded_app, concat_app. }
  split_and!.
  - apply get_web_analytics_events_returns.
  - done.
  - destruct (route_by_event_type object_type _ Hall)
      as (routed & Hr & Hsnd & Hnames & Hstream).
    exists routed. split_and!; try done.
    intros ty. by rewrite Hstream, Hrec, List.filter_app.
Qed.

Lemma events_are_routed_by_event_type_witness :
  let g := get_web_analytics_events sample_events id
             (λ _, "2024-02-10T00:00:00+00:00") "contact"
             "2024-03-01T00:00:00+00:00" [] (["A"] ++ ["B"]) in
  ∃ routed,
    route "contact" (records g.1) = Ok routed
    ∧ map (λ e, dict_get "id" e) (stream "contact_events_click" routed)
      = [Some (VStr "a1"); Some (VStr "a4"); Some (VStr "b2")]
    ∧ map (λ e, dict_get "id" e) (stream "contact_events_view" routed)
      = [Some (VStr "a2"); Some (VStr "a3"); Some (VStr "b1")].
Proof.
  destruct (events_are_routed_by_event_type sample_events id
              (λ _, "2024-02-10T00:00:00+00:00") "contact"
              "2024-03-01T00:00:00+00:00" [] ["A"] ["B"])
    as (_ & _ & routed & Hr & _ & _ & Hs).
  { vm_compute. repeat constructor; by eexists. }
  exists routed. split; [exact Hr|].
  split.
  - exact (f_equal (map (λ e, dict_get "id" e)) (Hs "click")).
  - exact (f_equal (map (λ e, dict_get "id" e)) (Hs "view")).
Defined.

(** ** The property resolver *)

Section Resolver.

Context (_get_property_names : string → list string).

Lemma map_result_as_str (l : list string) :
  map_result as_str (map VStr l) = Ok l.
Proof. induction l as [|x l IH]; cbn; [done | by rewrite IH]. Qed.

Lemma map_result_as_str_raise (l : list value) (e : exn) :
  map_result as_str l = Raise e → e = TypeError.
Proof.
  revert e. induction l as [|v l IH]; intros e; cbn; [done|].
  destruct v; cbn; try by intros [= <-].
  destruct (map_result as_str l); cbn; [done|].
  intros [= <-]. by apply IH.
Qed.

(** The sorted list of the distinct elements. *)
Lemma sorted_set_strings (l : list string) :
  ∃ r,
    sorted_set (map VStr l) = Ok r
    ∧ StronglySorted String.le r ∧ NoDup r ∧ ∀ x, x ∈ r ↔ x ∈ l.
Proof.
  exists (merge_sort String.le (elements (list_to_set l : gset string))).
  split_and!.
  - unfold sorted_set. by rewrite map_result_as_str.
  - apply StronglySorted_merge_sort; apply _.
  - rewrite merge_sort_Permutation. apply NoDup_elements.
  - intros x. rewrite merge_sort_Permutation, elem_of_elements.
    apply elem_of_list_to_set.
Qed.

Lemma collect_props_raise (object_type : string)
  (props : option (list (gmap string value))) (include_custom_props : bool)
  (e : exn) :
  collect_props _get_property_names object_type props include_custom_props
  = Raise e →
  e = TypeError.
Proof.
  unfold collect_props. case_decide.
  - cbn. by destruct include_custom_props.
  - destruct props as [l|]; cbn.
    + by destruct include_custom_props.
    + by intros [= <-].
Qed.

(** Resolution fails only with [TypeError]. *)
Lemma resolved_props_raise (object_type : string)
  (props : option (list (gmap string value))) (include_custom_props : bool)
  (e : exn) :
  resolved_props _get_property_names object_type props include_custom_props
  = Raise e →
  e = TypeError.
Proof.
  unfold resolved_props.
  destruct (collect_props _ _ _ _) as [vs|e'] eqn:Hc; cbn.
  - unfold sorted_set.
    destruct (map_result as_str vs) eqn:Hm; cbn; [done|].
    intros [= <-]. by eapply map_result_as_str_raise.
  - intros [= <-]. by eapply collect_props_raise.
Qed.

(** An explicit list whose descriptors all carry a name is not the [ALL]
    sentinel, and flattens to its names. *)
Lemma collect_explicit_props (object_type : string)
  (props : list (gmap string value)) (names : list string)
  (include_custom_props : bool) :
  Forall2 (λ prop name, prop !! "name" = Some (VStr name)) props names →
  collect_props _get_property_names object_type (Some props)
    include_custom_props =
  Ok (map VStr
        (names ++
         if include_custom_props then
           List.filter (λ prop, negb (startswith prop "hs_"))
             (_get_property_names object_type)
         else [])).
Proof.
  intros Hnames. unfold collect_props.
  rewrite decide_False.
  2: { intros [= ->]. unfold ALL in Hnames.
       apply Forall2_cons_inv_l in Hnames as (n & ? & Hn & _ & _).
       by rewrite lookup_singleton_ne in Hn. }
  assert (Hx : extract_properties_list (Some props) = Ok (map VStr names)).
  { unfold extract_properties_list. f_equal.
    induction Hnames as [|prop name props names Hn _ IH]; [done|].
    cbn. by rewrite Hn, IH. }
  rewrite Hx. cbn.
  destruct include_custom_props.
  - by rewrite map_app.
  - by rewrite app_nil_r.
Qed.

End Resolver.

(** C3: when resolution gives a string longer than 2000 characters,
    [fetch_props] raises the [ValueError] whose message names the limit
    2000, the first 200 characters of the string and its length; when the
    string is at most 2000 characters long, [fetch_props] returns it; when
    resolution itself fails, the error is a [TypeError] and not the length
    error. *)
Theorem fetch_props_length_check
  (_get_property_names : string → list string) (object_type : string)
  (props : option (list (gmap string value))) (include_custom_props : bool) :
  let result :=
    fetch_props _get_property_names object_type props include_custom_props in
  match
    resolved_props _get_property_names object_type props include_custom_props
  with
  | Ok s =>
      if decide (2000 < String.length s) then
        result =
          Raise (ValueError
            ("Your request to Hubspot is too long to process. Maximum allowed query length is 2000 symbols, while your list of properties `"
             +:+ slice s 0 200 +:+ "`... is " +:+ pretty (String.length s)
             +:+ " symbols long. Use the `props` argument of the resource to set the list of properties to extract from the endpoint."))
      else result = Ok s ∧ String.length s ≤ 2000
  | Raise e => result = Raise e ∧ e = TypeError
  end.
Proof.
  intros result. unfold result, fetch_props.
  destruct (resolved_props _ _ _ _) as [s|e] eqn:Hr;
    cbn [mbind result_bind bind].
  - destruct (Nat.ltb_spec MAX_PROPS_LENGTH (String.length s)) as [H|H];
      change MAX_PROPS_LENGTH with 2000 in H.
    + rewrite decide_True by done. reflexivity.
    + rewrite decide_False by lia. split; [done | lia].
  - split; [done|]. by eapply resolved_props_raise.
Qed.

(** C4: for an explicit list whose descriptors carry the names [names],
    the resolved list is sorted, free of duplicates and holds exactly the
    explicit names and, when custom properties are included, the catalog
    names that do not start with [hs_]; [fetch_props] returns its
    comma-join, unless that is longer than 2000 characters. *)
Theorem fetch_props_sorted_union
  (_get_property_names : string → list string) (object_type : string)
  (props : list (gmap string value)) (names : list string)
  (include_custom_props : bool) :
  Forall2 (λ prop name, prop !! "name" = Some (VStr name)) props names →
  ∃ resolved : list string,
    StronglySorted String.le resolved
    ∧ NoDup resolved
    ∧ (∀ x, x ∈ resolved ↔
            x ∈ names
            ∨ (include_custom_props = true
               ∧ x ∈ _get_property_names object_type
               ∧ startswith x "hs_" = false))
    ∧ fetch_props _get_property_names object_type (Some props)
        include_custom_props =
      if decide (String.length (join "," resolved) ≤ 2000)
      then Ok (join "," resolved)
      else Raise (ValueError (too_long_message (join "," resolved))).
Proof.
  intros Hnames.
  set (custom := if include_custom_props then
                   List.filter (λ prop, negb (startswith prop "hs_"))
                     (_get_property_names object_type)
                 else []).
  destruct (sorted_set_strings (names ++ custom))
    as (resolved & Hs & Hsorted & Hnodup & Hmem).
  exists resolved. split_and!; try done.
  - intros x. rewrite Hmem, elem_of_app. apply or_iff_compat_l.
    unfold custom. destruct include_custom_props.
    + rewrite list_elem_of_In, filter_In, <- list_elem_of_In, negb_true_iff.
      intuition.
    + rewrite elem_of_nil. intuition discriminate.
  - unfold fetch_props, resolved_props.
    rewrite (collect_explicit_props _ _ _ names) by done.
    fold custom. cbn [mbind result_bind bind]. rewrite Hs.
    cbn [mbind result_bind bind].
    destruct (Nat.ltb_spec MAX_PROPS_LENGTH (String.length (join "," resolved)))
      as [H|H]; change MAX_PROPS_LENGTH with 2000 in H.
    + by rewrite decide_False by lia.
    + by rewrite decide_True by lia.
Qed.

Lemma fetch_props_sorted_union_witness :
  fetch_props small_catalog "deal" (Some [ {[ "name" := VStr "amount" ]} ])
    false = Ok "amount".
Proof.
  destruct (fetch_props_sorted_union small_catalog "deal"
              [ {[ "name" := VStr "amount" ]} ] ["amount"] false)
    as (resolved & _ & Hnodup & Hmem & Hres).
  { constructor; [reflexivity | constructor]. }
  assert (Hall : ∀ x, x ∈ resolved ↔ x = "amount").
  { intros x. rewrite Hmem, list_elem_of_singleton.
    split; [intros [H|[H _]]; [exact H | discriminate H] | intros H; left; exact H]. }
  assert (Hone : resolved = ["amount"]).
  { destruct resolved as [|a [|b l]].
    - pose proof (proj2 (Hall "amount") eq_refl) as Hin.
      apply elem_of_nil in Hin. destruct Hin.
    - f_equal. apply Hall. apply list_elem_of_here.
    - exfalso. apply NoDup_cons in Hnodup as [Hnotin _]. apply Hnotin.
      assert (a = "amount") as -> by (apply Hall; apply list_elem_of_here).
      assert (b = "amount") as ->
        by (apply Hall; apply list_elem_of_further, list_elem_of_here).
      apply list_elem_of_here. }
  rewrite Hone in Hres. rewrite Hres. reflexivity.
Defined.

(** The example of the specification, for any catalog. *)
Example fetch_props_amount (_get_property_names : string → list string) :
  fetch_props _get_property_names "deal" (Some [ {[ "name" := VStr "amount" ]} ])
    false = Ok "amount".
Proof. by vm_compute. Qed.

(** C9: without an explicit list ([props = None]) [fetch_props] raises
    [TypeError] when it tries to flatten the list, before any property
    string is made. *)
Theorem fetch_props_requires_props
  (_get_property_names : string → list string) (object_type : string)
  (include_custom_props : bool) :
  extract_properties_list None = Raise TypeError
  ∧ collect_props _get_property_names object_type None include_custom_props
    = Raise TypeError
  ∧ resolved_props _get_property_names object_type None include_custom_props
    = Raise TypeError
  ∧ fetch_props _get_property_names object_type None include_custom_props
    = Raise TypeError.
Proof. by split_and!. Qed.

(** ** More on the chunking loop *)

Section ChunkingMore.

Lemma append_empty_r (s : string) : s +:+ "" = s.
Proof.
  induction s as [|x s IH]; [done|].
  change (String x (s +:+ "") = String x s). by rewrite IH.
Qed.

Lemma slice_empty (s : string) (i : nat) : slice s i 0 = "".
Proof.
  unfold slice. revert i.
  induction s as [|c s IH]; intros [|i]; cbn [String.substring]; auto.
Qed.

Lemma slice_prefix (s a r : string) (i n : nat) :
  slice s i n = a +:+ r → slice s i (String.length a) = a.
Proof.
  unfold slice. revert i n a.
  induction s as [|c s IH]; intros i n a H.
  - destruct a as [|x a]; [by destruct i | by destruct i, n].
  - destruct i as [|i].
    + destruct a as [|x a]; [done|].
      destruct n as [|n]; [done|].
      cbn [String.substring] in H.
      change (String x a +:+ r) with (String x (a +:+ r)) in H.
      injection H as -> H.
      cbn [String.length String.substring]. f_equal. by eapply IH.
    + cbn [String.substring] in *. by eapply IH.
Qed.

Lemma slice_add (s : string) (i a b : nat) :
  i + a ≤ String.length s →
  slice s i a +:+ slice s (i + a) b = slice s i (a + b).
Proof.
  unfold slice. revert i a.
  induction s as [|c s IH]; intros i a H; cbn [String.length] in H.
  - assert (i = 0) as -> by lia. assert (a = 0) as -> by lia. done.
  - destruct i as [|i].
    + destruct a as [|a]; [done|].
      cbn [Nat.add String.substring].
      change (String c ?x +:+ ?y) with (String c (x +:+ y)).
      f_equal. apply (IH 0 a). lia.
    + cbn [Nat.add String.substring]. apply IH. lia.
Qed.

Lemma join_drop_last_prefix (l : list string) :
  ∃ rest, join "," l = join "," (drop_last l) +:+ rest.
Proof.
  unfold drop_last.
  induction l as [|x [|y l] (rest & IH)].
  - by exists "".
  - by exists x.
  - change (removelast (x :: y :: l)) with (x :: removelast (y :: l)).
    rewrite join_cons2, IH.
    destruct (removelast (y :: l)) as [|z l'].
    + by exists ("," +:+ join "," [] +:+ rest).
    + exists rest. rewrite (join_cons2 _ x z l').
      by rewrite !app_assoc_string.
Qed.

(** Each chunk is the piece of [props] that starts at the cursor. *)
Lemma props_part_is_slice (props : string) (idx : nat) :
  props_part props idx = slice props idx (String.length (props_part props idx)).
Proof.
  unfold props_part.
  destruct (String.length props - idx <? MAX_PROPS_LENGTH) eqn:E.
  - destruct (join_drop_last_prefix
                (split_nonempty "," (slice props idx MAX_PROPS_LENGTH)))
      as (rest & Hrest).
    rewrite join_split_comma in Hrest.
    symmetry. by eapply slice_prefix.
  - apply Nat.ltb_ge in E. rewrite length_slice.
    by replace (MAX_PROPS_LENGTH `min` (String.length props - idx))
      with MAX_PROPS_LENGTH by lia.
Qed.

Lemma chunk_plan_whole_windows (props : string) (n idx : nat) :
  String.length props - idx = n * MAX_PROPS_LENGTH →
  (chunk_plan n props idx).2 = true.
Proof.
  revert idx. induction n as [|n IH]; intros idx H; simpl.
  - by destruct (Nat.ltb_spec idx (String.length props)); [lia|].
  - assert (0 < MAX_PROPS_LENGTH) by (unfold MAX_PROPS_LENGTH; lia).
    destruct (Nat.ltb_spec idx (String.length props)); [|lia].
    cbn [snd]. apply IH.
    rewrite length_props_part_full by lia. lia.
Qed.

End ChunkingMore.

(** X1: every chunk the loop accepts is at most 2000 characters long, and
    the chunks are consecutive pieces of the string: joined without a
    separator they give the part of [props] between the starting cursor and
    the cursor reached. *)
Theorem chunks_are_consecutive_slices (fuel : nat) (props : string) (idx : nat) :
  let chunks := (chunk_plan fuel props idx).1 in
  Forall (λ c, String.length c ≤ 2000) chunks
  ∧ join "" chunks =
      slice props idx (sum_list (map String.length chunks))
  ∧ idx + sum_list (map String.length chunks) ≤ idx `max` String.length props.
Proof.
  revert idx. induction fuel as [|fuel IH]; intros idx; cbn [chunk_plan].
  - destruct (idx <? String.length props); cbn [fst map sum_list].
    + split_and!; [done | by rewrite slice_empty | lia].
    + split_and!; [done | by rewrite slice_empty | lia].
  - destruct (Nat.ltb_spec idx (String.length props)) as [Hlt|Hge].
    + cbn [fst]. destruct (IH (idx + String.length (props_part props idx)))
        as (Hlen & Hjoin & Hle).
      pose proof (length_props_part_le props idx Hlt) as Hpart.
      assert (Hin : idx + String.length (props_part props idx)
                    ≤ String.length props).
      { destruct (decide (MAX_PROPS_LENGTH ≤ String.length props - idx)).
        - rewrite length_props_part_full by done. lia.
        - pose proof (length_props_part_tail props idx). lia. }
      set (part := props_part props idx) in *.
      set (rest := (chunk_plan fuel props (idx + String.length part)).1) in *.
      change (sum_list (map String.length (part :: rest)))
        with (String.length part + sum_list (map String.length rest)).
      split_and!.
      * constructor; [exact Hpart | exact Hlen].
      * rewrite <- slice_add by done. rewrite <- Hjoin.
        pose proof (props_part_is_slice props idx) as Hs. fold part in Hs.
        rewrite <- Hs.
        destruct rest as [|c rest]; [|done].
        change (part = part +:+ ""). by rewrite append_empty_r.
      * lia.
    + cbn [fst map sum_list].
      split_and!; [done | by rewrite slice_empty | lia].
Qed.

(** X2: for an object type that has an endpoint the generator
    [stages_timing] leaves its loop, for a large enough bound, exactly when
    the length of the joined stage properties is a multiple of 2000. *)
Theorem stages_loop_returns_iff_whole_windows
  (api_pages : string → gmap string value → list page)
  (object_type endpoint props : string) (soft_delete : bool) :
  CRM_OBJECT_ENDPOINTS !! object_type = Some endpoint →
  (∃ fuel,
     (stages_loop api_pages fuel object_type soft_delete props 0).2 = Returned)
  ↔ String.length props `mod` 2000 = 0.
Proof.
  intros Hep. split.
  - intros [fuel Hret].
    destruct (decide (String.length props `mod` 2000 = 0)) as [|Hne]; [done|].
    erewrite stages_loop_ending in Hret by done.
    rewrite chunk_plan_stuck in Hret; [done|].
    by rewrite Nat.sub_0_r.
  - intros Hmod. exists (String.length props `div` 2000).
    erewrite stages_loop_ending by done.
    rewrite chunk_plan_whole_windows; [done|].
    rewrite Nat.sub_0_r. change MAX_PROPS_LENGTH with 2000.
    pose proof (Nat.div_mod_eq (String.length props) 2000). lia.
Qed.

Lemma stages_loop_returns_iff_whole_windows_witness :
  (∃ fuel,
     (stages_loop sample_api fuel "deal" true
        (stage_props sample_catalog "deal") 0).2 = Returned).
Proof.
  apply (stages_loop_returns_iff_whole_windows sample_api "deal"
           "/crm/v3/objects/deals" (stage_props sample_catalog "deal") true).
  - reflexivity.
  - by vm_compute.
Defined.

(** ** The requests of the fetcher and of the generators built on it *)

Section Requests.

Context (api_pages : string → gmap string value → list page).

Lemma fetches_fetch_data (endpoint : string) (params : gmap string value)
  (context : option dict) :
  fetches (fetch_data api_pages endpoint params context).1
  = [Request endpoint params context].
Proof.
  unfold fetch_data. cbn [fst].
  change (fetches (EvFetch ?r :: ?t)) with (r :: fetches t). f_equal.
  induction (api_pages endpoint params) as [|p l IH]; [done|].
  cbn [map]. by change (fetches (EvYield ?p :: ?t)) with (fetches t).
Qed.

Lemma gen_then_fetch_data (endpoint : string) (params : gmap string value)
  (context : option dict) (g : gen) :
  (gen_then (fetch_data api_pages endpoint params context) g).1
  = (fetch_data api_pages endpoint params context).1 ++ g.1.
Proof. done. Qed.

Lemma fetch_data_for_properties_fetches (props object_type endpoint : string)
  (soft_delete : bool) :
  CRM_OBJECT_ENDPOINTS !! object_type = Some endpoint →
  let params : gmap string value :=
    <["limit" := VInt 100]> {[ "properties" := VStr props ]} in
  fetches (fetch_data_for_properties api_pages props object_type soft_delete).1
  = if soft_delete then
      [ Request endpoint params (Some [(SOFT_DELETE_KEY, VBool false)]);
        Request endpoint (<["archived" := VBool true]> params)
          (Some [(SOFT_DELETE_KEY, VBool true)]) ]
    else [ Request endpoint params None ].
Proof.
  intros Hep params. unfold fetch_data_for_properties. rewrite Hep.
  fold params.
  replace (ARCHIVED_PARAM ∪ params) with (<["archived" := VBool true]> params)
    by (unfold ARCHIVED_PARAM; by rewrite <- insert_union_singleton_l).
  rewrite gen_then_fetch_data, fetches_app, fetches_fetch_data.
  destruct soft_delete; [by rewrite fetches_fetch_data | done].
Qed.

Lemma fetch_data_for_properties_limit (props object_type : string)
  (soft_delete : bool) :
  Forall (λ r, req_params r !! "properties" = Some (VStr props)
               ∧ req_params r !! "limit" = Some (VInt 100))
    (fetches (fetch_data_for_properties api_pages props object_type
                soft_delete).1).
Proof.
  destruct (CRM_OBJECT_ENDPOINTS !! object_type) as [endpoint|] eqn:Hep.
  - rewrite (fetch_data_for_properties_fetches _ _ endpoint) by done.
    destruct soft_delete; repeat constructor.
  - rewrite fetch_data_for_properties_unknown by done. constructor.
Qed.

End Requests.

(** X3: a known object type gets one request without soft delete and two
    with it, all to the endpoint of the object type with the given
    properties and the page size 100; the second request alone asks for the
    archived partition, and without soft delete the pages are yielded as
    the API returned them. *)
Theorem fetch_data_for_properties_requests
  (api_pages : string → gmap string value → list page)
  (props object_type endpoint : string) (soft_delete : bool) :
  CRM_OBJECT_ENDPOINTS !! object_type = Some endpoint →
  let g := fetch_data_for_properties api_pages props object_type soft_delete in
  length (fetches g.1) = (if soft_delete then 2 else 1)
  ∧ Forall (λ r, req_endpoint r = endpoint
                 ∧ req_params r !! "properties" = Some (VStr props)
                 ∧ req_params r !! "limit" = Some (VInt 100))
      (fetches g.1)
  ∧ map (λ r, req_params r !! "archived") (fetches g.1)
    = (if soft_delete then [None; Some (VBool true)] else [None])
  ∧ (if soft_delete then True
     else yielded g.1 =
            api_pages endpoint
              (<["limit" := VInt 100]> {[ "properties" := VStr props ]})).
Proof.
  intros Hep g. unfold g.
  rewrite (fetch_data_for_properties_fetches _ _ _ endpoint) by done.
  split_and!.
  - by destruct soft_delete.
  - destruct soft_delete; repeat constructor.
  - by destruct soft_delete.
  - destruct soft_delete; [done|].
    unfold fetch_data_for_properties. rewrite Hep.
    rewrite gen_then_fetch_data, yielded_app, yielded_fetch_data.
    change (yielded ([], Returned).1) with (@nil page). rewrite app_nil_r.
    rewrite <- (map_id (api_pages _ _)) at 2. apply map_ext.
    intros p. apply map_id.
Qed.

Lemma fetch_data_for_properties_requests_witness :
  let g := fetch_data_for_properties sample_api "amount" "deal" true in
  length (fetches g.1) = 2
  ∧ map (λ r, req_params r !! "archived") (fetches g.1)
    = [None; Some (VBool true)].
Proof.
  destruct (fetch_data_for_properties_requests sample_api "amount" "deal"
              "/crm/v3/objects/deals" true eq_refl) as (Hn & _ & Ha & _).
  split; [exact Hn | exact Ha].
Defined.

(** X4: whatever its arguments, every request made by the loop of
    [stages_timing] asks for a property list of at most 2000 characters. *)
Theorem stages_loop_requests_fit_limit
  (api_pages : string → gmap string value → list page)
  (fuel : nat) (object_type : string) (soft_delete : bool)
  (props : string) (idx : nat) :
  Forall (λ r, ∃ s, req_params r !! "properties" = Some (VStr s)
                    ∧ String.length s ≤ 2000)
    (fetches (stages_loop api_pages fuel object_type soft_delete props idx).1).
Proof.
  revert idx. induction fuel as [|fuel IH]; intros idx; cbn [stages_loop];
    destruct (Nat.ltb_spec idx (String.length props)) as [Hlt|Hge];
    try by constructor.
  set (part := props_part props idx).
  set (g := fetch_data_for_properties api_pages part object_type soft_delete).
  destruct (CRM_OBJECT_ENDPOINTS !! object_type) as [endpoint|] eqn:Hep.
  - destruct (pivot_events_total g.1 g.2) as (t' & -> & Hf).
    unfold g at 1. erewrite fetch_data_for_properties_returns by done.
    rewrite gen_then_returned. cbn [fst]. rewrite fetches_app, Hf.
    apply Forall_app. split; [|apply IH].
    eapply Forall_impl; [apply fetch_data_for_properties_limit|].
    intros r [Hr _]. exists part. split; [done|].
    by apply length_props_part_le.
  - assert (Hg : g = ([], Raised (KeyError object_type)))
      by by apply fetch_data_for_properties_unknown.
    rewrite Hg. constructor.
Qed.

(** X5: [crm_objects] fetches nothing when the resolution of the
    properties fails, and otherwise every request it makes carries the
    resolved property string, which is at most 2000 characters long. *)
Theorem crm_objects_requests_fit_limit
  (api_pages : string → gmap string value → list page)
  (_get_property_names : string → list string) (object_type : string)
  (props : option (list (gmap string value)))
  (include_custom_props archived : bool) :
  let g := crm_objects api_pages _get_property_names object_type props
             include_custom_props archived in
  match fetch_props _get_property_names object_type props include_custom_props with
  | Raise e => g = ([], Raised e)
  | Ok s =>
      String.length s ≤ 2000
      ∧ Forall (λ r, req_params r !! "properties" = Some (VStr s)
                     ∧ req_params r !! "limit" = Some (VInt 100))
          (fetches g.1)
  end.
Proof.
  intros g. unfold g, crm_objects.
  destruct (fetch_props _ _ _ _) as [s|e] eqn:Hf; [|done].
  split; [|apply fetch_data_for_properties_limit].
  unfold fetch_props in Hf.
  destruct (resolved_props _ _ _ _) as [s'|]; cbn [mbind result_bind bind] in Hf;
    [|done].
  destruct (Nat.ltb_spec MAX_PROPS_LENGTH (String.length s')) as [H|H]; [done|].
  injection Hf as <-. exact H.
Qed.

(** X6: for an object type without an endpoint, [stages_timing] with at
    least one stage property raises [KeyError] in its first iteration,
    before any fetch, and [crm_objects] raises it once the properties are
    resolved. *)
Theorem unknown_object_type_raises_key_error
  (api_pages : string → gmap string value → list page)
  (_get_property_names : string → list string) (fuel : nat)
  (object_type : string) (props : option (list (gmap string value)))
  (resolved : string) (include_custom_props soft_delete : bool) :
  CRM_OBJECT_ENDPOINTS !! object_type = None →
  stage_props _get_property_names object_type ≠ "" →
  fetch_props _get_property_names object_type props include_custom_props
    = Ok resolved →
  stages_timing api_pages _get_property_names (S fuel) object_type soft_delete
    = ([], Raised (KeyError object_type))
  ∧ crm_objects api_pages _get_property_names object_type props
      include_custom_props soft_delete
    = ([], Raised (KeyError object_type)).
Proof.
  intros Hep Hprops Hres. split.
  - unfold stages_timing. cbn [stages_loop].
    destruct (Nat.ltb_spec 0 (String.length (stage_props _get_property_names
                                               object_type))) as [_|Hz].
    + by rewrite fetch_data_for_properties_unknown.
    + destruct (stage_props _ _); [done | cbn in Hz; lia].
  - unfold crm_objects. rewrite Hres.
    by apply fetch_data_for_properties_unknown.
Qed.

Lemma unknown_object_type_raises_key_error_witness :
  stages_timing sample_api small_catalog 1 "lead" true
    = ([], Raised (KeyError "lead"))
  ∧ crm_objects sample_api small_catalog "lead"
      (Some [ {[ "name" := VStr "amount" ]} ]) false true
    = ([], Raised (KeyError "lead")).
Proof.
  apply (unknown_object_type_raises_key_error sample_api small_catalog 0
           "lead" (Some [ {[ "name" := VStr "amount" ]} ]) "amount" false true).
  - reflexivity.
  - by vm_compute.
  - by vm_compute.
Defined.

(** ** More on the pivot *)

Section PivotMore.

Lemma prefix_app (a s : string) : String.prefix a (a +:+ s) = true.
Proof.
  induction a as [|x a IH]; [by destruct s|].
  change (String x a +:+ s) with (String x (a +:+ s)).
  cbn [String.prefix]. by destruct (ascii_dec x x).
Qed.

Lemma prefix_empty (s : string) : String.prefix "" s = true.
Proof. by destruct s. Qed.

(** Passing over the rest of a separator leaves the scan at the text that
    follows it. *)
Lemma split_scan_skip (sep a s : string) :
  split_scan sep (String.length a) (a +:+ s) = split_scan sep 0 s.
Proof.
  induction a as [|x a IH]; [done|].
  change (String x a +:+ s) with (String x (a +:+ s)).
  cbn [String.length split_scan]. exact IH.
Qed.

(** A text in which the separator does not occur is a single token. *)
Lemma split_scan_no_occurrence (sep s : string) :
  String.index 0 sep s = None → split_scan sep 0 s = (s, []).
Proof.
  induction s as [|c s IH]; [done|].
  cbn [String.index split_scan].
  destruct (String.prefix sep (String c s)); [done|].
  destruct (String.index 0 sep s); [done|].
  intros _. by rewrite IH.
Qed.

Lemma split_prefixed_once (sep suffix : string) :
  sep ≠ "" → String.index 0 sep suffix = None →
  split_nonempty sep (sep +:+ suffix) = [""; suffix].
Proof.
  intros Hsep Hnone. unfold split_nonempty.
  pose proof (prefix_app sep suffix) as Hpre.
  destruct sep as [|x sep]; [done|].
  change (String x sep +:+ suffix) with (String x (sep +:+ suffix)) in *.
  cbn [split_scan]. rewrite Hpre.
  cbn [String.length]. rewrite Nat.sub_succ, Nat.sub_0_r.
  rewrite split_scan_skip, split_scan_no_occurrence by done. done.
Qed.

Lemma stage_row_of_split (id_val : value) (k : string) (v : value)
  (t : string) (ts : list string) :
  split_nonempty STAGE_PROPERTY_PREFIX k = "" :: t :: ts →
  stage_row STAGE_PROPERTY_PREFIX "id" id_val (k, v)
  = Ok [("id", id_val); (STAGE_PROPERTY_PREFIX, v); ("stage", VStr t)].
Proof.
  intros E. unfold stage_row, split.
  rewrite decide_False by discriminate.
  cbn [mbind result_bind bind fst snd]. rewrite E. reflexivity.
Qed.

Lemma filter_stage_remove_id (l : dict) :
  List.filter (λ kv, startswith kv.1 STAGE_PROPERTY_PREFIX) (dict_remove "id" l)
  = List.filter (λ kv, startswith kv.1 STAGE_PROPERTY_PREFIX) l.
Proof.
  unfold dict_remove.
  induction l as [|[k v] l IH]; [done|].
  cbn [List.filter fst]. case_decide as Hk.
  - subst k. rewrite IH. done.
  - cbn [List.filter fst]. by rewrite IH.
Qed.

End PivotMore.

(** X7: pivoting a page made of two pages gives the rows of the first
    followed by the rows of the second, for every prefix and id field; an
    exception raised for the first page comes first. *)
Theorem pivot_of_appended_pages (property_prefix id_prop : string)
  (data1 data2 : page) :
  pivot_stages_properties_with property_prefix id_prop (data1 ++ data2) =
    match pivot_stages_properties_with property_prefix id_prop data1 with
    | Raise e => Raise e
    | Ok rows1 =>
        match pivot_stages_properties_with property_prefix id_prop data2 with
        | Raise e => Raise e
        | Ok rows2 => Ok (rows1 ++ rows2)
        end
    end.
Proof.
  induction data1 as [|record data1 IH].
  - cbn [app pivot_stages_properties_with].
    by destruct (pivot_stages_properties_with _ _ data2).
  - cbn [app pivot_stages_properties_with]. rewrite IH.
    destruct (pivot_record property_prefix id_prop record) as [rows|];
      cbn [mbind result_bind bind]; [|done].
    destruct (pivot_stages_properties_with _ _ data1) as [rows1|];
      cbn [mbind result_bind bind]; [|done].
    destruct (pivot_stages_properties_with _ _ data2) as [rows2|];
      cbn [mbind result_bind bind]; [|done].
    by rewrite app_assoc.
Qed.

(** X8: with an empty prefix the pivot raises [ValueError] for a record
    that has a non-null id and at least one other non-null property, since
    every name starts with the empty prefix and cannot be split on it. *)
Theorem pivot_with_empty_prefix_raises (id_prop : string) (record : dict) :
  dict_mem id_prop (record_not_null record) = true →
  dict_remove id_prop (record_not_null record) ≠ [] →
  pivot_record "" id_prop record = Raise (ValueError "empty separator").
Proof.
  intros Hid Hrest. unfold pivot_record. rewrite Hid. cbn [negb].
  set (l := dict_remove id_prop (record_not_null record)) in *.
  assert (Hall : List.filter (λ kv : string * value, startswith kv.1 "") l = l).
  { clear. induction l as [|kv l IH]; [done|].
    cbn [List.filter]. unfold startswith at 1. by rewrite prefix_empty, IH. }
  rewrite Hall. by destruct l.
Qed.

Lemma pivot_with_empty_prefix_raises_witness :
  pivot_record "" "id" [("id", VStr "1"); ("other", VInt 3)]
  = Raise (ValueError "empty separator").
Proof.
  apply (pivot_with_empty_prefix_raises "id"
           [("id", VStr "1"); ("other", VInt 3)]); [reflexivity | discriminate].
Defined.

(** X9: a record with a non-null id gives one row for each of its non-null
    properties whose name starts with [hs_date_entered_], in the order of
    the record; the row holds the id of the record, the value of the
    property under the key [hs_date_entered_], and as stage the second
    piece of the name split on the prefix. *)
Theorem pivot_record_rows (record : dict) (id_val : value) :
  dict_get "id" (record_not_null record) = Some id_val →
  ∃ rows,
    pivot_record STAGE_PROPERTY_PREFIX "id" record = Ok rows
    ∧ Forall2
        (λ kv row,
           ∃ stage,
             split_nonempty STAGE_PROPERTY_PREFIX kv.1 !! 1 = Some stage
             ∧ row = [("id", id_val); (STAGE_PROPERTY_PREFIX, kv.2);
                      ("stage", VStr stage)])
        (List.filter
           (λ kv, startswith kv.1 STAGE_PROPERTY_PREFIX && is_not_none kv.2)
           record)
        rows.
Proof.
  intros Hid. unfold pivot_record, dict_mem. rewrite Hid. cbn [negb default].
  rewrite filter_stage_remove_id.
  assert (Hf : List.filter (λ kv, startswith kv.1 STAGE_PROPERTY_PREFIX)
                 (record_not_null record)
               = List.filter
                   (λ kv, startswith kv.1 STAGE_PROPERTY_PREFIX
                          && is_not_none kv.2) record).
  { unfold record_not_null. clear.
    induction record as [|[k v] l IH]; [done|].
    cbn [List.filter fst snd].
    destruct (is_not_none v); cbn [List.filter fst snd];
      destruct (startswith k STAGE_PROPERTY_PREFIX); cbn [andb]; by rewrite IH. }
  rewrite Hf.
  set (l := List.filter _ record).
  assert (Hl : Forall (λ kv, startswith kv.1 STAGE_PROPERTY_PREFIX = true) l).
  { apply Forall_forall. intros kv Hin. apply list_elem_of_In in Hin.
    apply filter_In in Hin as [_ Hkv]. by apply andb_true_iff in Hkv as [? _]. }
  clearbody l. induction Hl as [|kv l Hkv _ (rows & Hrows & Hall)].
  - exists []. by split.
  - destruct (split_of_prefixed STAGE_PROPERTY_PREFIX kv.1) as (t & ts & E);
      [done | done |].
    exists ([("id", id_val); (STAGE_PROPERTY_PREFIX, kv.2); ("stage", VStr t)]
            :: rows).
    split.
    + cbn [map_result]. unfold stage_row at 1, split.
      rewrite decide_False by done. cbn [mbind result_bind bind].
      rewrite E. cbn [index lookup list_lookup mbind result_bind bind].
      change (dict_of [("id", id_val); (STAGE_PROPERTY_PREFIX, kv.2);
                       ("stage", VStr t)])
        with [("id", id_val); (STAGE_PROPERTY_PREFIX, kv.2); ("stage", VStr t)].
      by rewrite Hrows.
    + constructor; [|done]. exists t. by rewrite E.
Qed.

Lemma pivot_record_rows_witness :
  ∃ rows,
    pivot_record STAGE_PROPERTY_PREFIX "id"
      [("hs_date_entered_b", VStr "2024-02-01"); ("id", VStr "7");
       ("hs_date_entered_a", VStr "2024-01-01"); ("hs_date_entered_c", VNone)]
    = Ok rows
    ∧ length rows = 2.
Proof.
  destruct (pivot_record_rows
              [("hs_date_entered_b", VStr "2024-02-01"); ("id", VStr "7");
               ("hs_date_entered_a", VStr "2024-01-01");
               ("hs_date_entered_c", VNone)] (VStr "7") eq_refl)
    as (rows & Hrows & Hall).
  exists rows. split; [exact Hrows|].
  apply Forall2_length in Hall. symmetry. exact Hall.
Defined.

(** X10: for a property named [hs_date_entered_] followed by a text in
    which [hs_date_entered_] does not occur, the stage of the row is that
    text. *)
Theorem stage_is_the_suffix_of_a_plain_name (id_val v : value)
  (suffix : string) :
  String.index 0 STAGE_PROPERTY_PREFIX suffix = None →
  stage_row STAGE_PROPERTY_PREFIX "id" id_val
    (STAGE_PROPERTY_PREFIX +:+ suffix, v)
  = Ok [("id", id_val); (STAGE_PROPERTY_PREFIX, v); ("stage", VStr suffix)].
Proof.
  intros Hnone. apply (stage_row_of_split id_val _ v suffix []).
  apply split_prefixed_once; [discriminate | exact Hnone].
Qed.

Lemma stage_is_the_suffix_of_a_plain_name_witness :
  stage_row STAGE_PROPERTY_PREFIX "id" (VStr "1")
    ("hs_date_entered_appointmentscheduled", VStr "2024-01-01")
  = Ok [("id", VStr "1"); ("hs_date_entered_", VStr "2024-01-01");
        ("stage", VStr "appointmentscheduled")].
Proof.
  apply (stage_is_the_suffix_of_a_plain_name (VStr "1") (VStr "2024-01-01")
           "appointmentscheduled").
  reflexivity.
Defined.

(** ** More on the property resolver *)

Section ResolverMore.

Context (_get_property_names : string → list string).

Lemma sorted_set_map_VStr (l : list string) :
  sorted_set (map VStr l)
  = Ok (merge_sort String.le (elements (list_to_set l : gset string))).
Proof. unfold sorted_set. by rewrite map_result_as_str. Qed.

(** The sorted set depends on the members of the list only. *)
Lemma sorted_set_same_members (l1 l2 : list string) :
  (∀ x, x ∈ l1 ↔ x ∈ l2) →
  sorted_set (map VStr l1) = sorted_set (map VStr l2).
Proof.
  intros H. rewrite !sorted_set_map_VStr. do 3 f_equal.
  apply set_eq. intros x. by rewrite !elem_of_list_to_set.
Qed.

Lemma map_result_as_str_not_str (l : list value) (v : value) :
  v ∈ l → (∀ s, v ≠ VStr s) → map_result as_str l = Raise TypeError.
Proof.
  intros Hin Hv.
  destruct (map_result as_str l) as [names|e] eqn:E.
  - exfalso. revert names E.
    induction Hin as [v l|v w l Hin IH]; intros names E; cbn in E.
    + destruct v; try done. by eapply Hv.
    + destruct w; try done. cbn in E.
      destruct (map_result as_str l) as [names'|]; [|done].
      by eapply IH.
  - f_equal. by eapply map_result_as_str_raise.
Qed.

Lemma collect_all_props (object_type : string) (include_custom_props : bool) :
  collect_props _get_property_names object_type (Some ALL) include_custom_props
  = Ok (map VStr
          (_get_property_names object_type ++
           if include_custom_props then
             List.filter (λ prop, negb (startswith prop "hs_"))
               (_get_property_names object_type)
           else [])).
Proof.
  unfold collect_props. rewrite decide_True by done.
  cbn [mbind result_bind bind].
  destruct include_custom_props; [by rewrite map_app | by rewrite app_nil_r].
Qed.

End ResolverMore.

(** X11: with the [ALL] sentinel the resolved list is the sorted list of
    the distinct catalog names, and [include_custom_props] makes no
    difference to what [fetch_props] returns or raises. *)
Theorem fetch_props_all_is_the_catalog
  (_get_property_names : string → list string) (object_type : string) :
  ∃ resolved : list string,
    StronglySorted String.le resolved
    ∧ NoDup resolved
    ∧ (∀ x, x ∈ resolved ↔ x ∈ _get_property_names object_type)
    ∧ ∀ include_custom_props,
        fetch_props _get_property_names object_type (Some ALL)
          include_custom_props =
        if decide (String.length (join "," resolved) ≤ 2000)
        then Ok (join "," resolved)
        else Raise (ValueError (too_long_message (join "," resolved))).
Proof.
  destruct (sorted_set_strings (_get_property_names object_type))
    as (resolved & Hs & Hsorted & Hnodup & Hmem).
  exists resolved. split_and!; try done.
  intros icp. unfold fetch_props, resolved_props.
  rewrite collect_all_props. cbn [mbind result_bind bind].
  rewrite (sorted_set_same_members _ (_get_property_names object_type)).
  2: { intros x. rewrite elem_of_app. split; [|by left].
       intros [H|H]; [done|]. destruct icp.
       - apply list_elem_of_In, filter_In in H as [H _].
         by apply list_elem_of_In.
       - by apply elem_of_nil in H. }
  rewrite Hs. cbn [mbind result_bind bind].
  destruct (Nat.ltb_spec MAX_PROPS_LENGTH (String.length (join "," resolved)))
    as [H|H]; change MAX_PROPS_LENGTH with 2000 in H.
  - by rewrite decide_False by lia.
  - by rewrite decide_True by lia.
Qed.

(** X12: two explicit lists that carry the same names, in any order and
    with any repetitions, resolve to the same result. *)
Theorem fetch_props_ignores_order_and_repetition
  (_get_property_names : string → list string) (object_type : string)
  (props1 props2 : list (gmap string value)) (names1 names2 : list string)
  (include_custom_props : bool) :
  Forall2 (λ prop name, prop !! "name" = Some (VStr name)) props1 names1 →
  Forall2 (λ prop name, prop !! "name" = Some (VStr name)) props2 names2 →
  (∀ x, x ∈ names1 ↔ x ∈ names2) →
  fetch_props _get_property_names object_type (Some props1)
    include_custom_props
  = fetch_props _get_property_names object_type (Some props2)
      include_custom_props.
Proof.
  intros H1 H2 Hsame. unfold fetch_props, resolved_props.
  rewrite (collect_explicit_props _ _ _ names1) by done.
  rewrite (collect_explicit_props _ _ _ names2) by done.
  cbn [mbind result_bind bind].
  set (custom := if include_custom_props then _ else _).
  rewrite (sorted_set_same_members (names1 ++ custom) (names2 ++ custom));
    [done|].
  intros x. rewrite !elem_of_app, Hsame. done.
Qed.

Lemma fetch_props_ignores_order_and_repetition_witness :
  fetch_props small_catalog "deal"
    (Some [ {[ "name" := VStr "b" ]}; {[ "name" := VStr "a" ]};
            {[ "name" := VStr "b" ]} ]) true
  = fetch_props small_catalog "deal"
      (Some [ {[ "name" := VStr "a" ]}; {[ "name" := VStr "b" ]} ]) true.
Proof.
  apply (fetch_props_ignores_order_and_repetition small_catalog "deal"
           _ _ ["b"; "a"; "b"] ["a"; "b"] true).
  - repeat constructor.
  - repeat constructor.
  - intros x. rewrite !elem_of_cons, !elem_of_nil. intuition.
Defined.

(** X13: an explicit list other than [ALL] with a descriptor that has no
    string under [name] makes [fetch_props] raise [TypeError]. *)
Theorem fetch_props_rejects_unnamed_descriptor
  (_get_property_names : string → list string) (object_type : string)
  (props : list (gmap string value)) (prop : gmap string value)
  (include_custom_props : bool) :
  props ≠ ALL →
  prop ∈ props →
  (∀ s, prop !! "name" ≠ Some (VStr s)) →
  fetch_props _get_property_names object_type (Some props)
    include_custom_props
  = Raise TypeError.
Proof.
  intros Hall Hin Hname. unfold fetch_props, resolved_props, collect_props.
  rewrite decide_False by congruence.
  cbn [extract_properties_list mbind result_bind bind].
  set (vs := map (λ p : gmap string value, default VNone (p !! "name")) props).
  assert (Hv : default VNone (prop !! "name") ∈ vs)
    by exact (list_elem_of_fmap_2
                (λ p : gmap string value, default VNone (p !! "name")) _ _ Hin).
  assert (Hns : ∀ s, default VNone (prop !! "name") ≠ VStr s).
  { intros s. destruct (prop !! "name") as [v|] eqn:E; cbn; [|done].
    intros ->. by eapply Hname. }
  assert (Hraise : ∀ l, map_result as_str (vs ++ l) = Raise TypeError).
  { intros l. eapply map_result_as_str_not_str; [|exact Hns].
    apply elem_of_app. by left. }
  unfold sorted_set.
  destruct include_custom_props; cbn [mbind result_bind bind].
  - by rewrite Hraise.
  - specialize (Hraise []). rewrite app_nil_r in Hraise. by rewrite Hraise.
Qed.

Lemma fetch_props_rejects_unnamed_descriptor_witness :
  fetch_props small_catalog "deal"
    (Some [ {[ "name" := VStr "amount" ]}; {[ "label" := VStr "Stage" ]} ])
    false
  = Raise TypeError.
Proof.
  apply (fetch_props_rejects_unnamed_descriptor small_catalog "deal" _
           {[ "label" := VStr "Stage" ]} false).
  - discriminate.
  - apply list_elem_of_further, list_elem_of_here.
  - intros s. rewrite lookup_singleton_ne; discriminate.
Defined.

(** ** More on the event generator *)


(** X15: two events that have an [eventType] get the same table name
    exactly when their event types print the same text. *)
Theorem table_name_same_for_same_text (object_type : string) (e1 e2 : dict)
  (v1 v2 : value) :
  dict_get "eventType" e1 = Some v1 →
  dict_get "eventType" e2 = Some v2 →
  table_name object_type e1 = table_name object_type e2 ↔ str v1 = str v2.
Proof.
  intros H1 H2. unfold table_name. rewrite H1, H2. split.
  - intros [= Heq]. by do 2 apply (inj (String.app _)) in Heq.
  - by intros ->.
Qed.

Lemma table_name_same_for_same_text_witness :
  table_name "contact" [("id", VStr "1"); ("eventType", VNone)]
  = table_name "contact" [("id", VStr "2"); ("eventType", VStr "None")].
Proof.
  apply (table_name_same_for_same_text "contact"
           [("id", VStr "1"); ("eventType", VNone)]
           [("id", VStr "2"); ("eventType", VStr "None")] VNone (VStr "None"));
    reflexivity.
Defined.

(** ** The owners resource *)


(** ** The property labels resource *)

Section Labels.

Context (config : string → option (list (gmap string value))).

Lemma map_result_ok {A B} (f : A → result B) (g : A → B) (l : list A) :
  Forall (λ x, f x = Ok (g x)) l → map_result f l = Ok (map g l).
Proof.
  induction 1 as [|x l Hx _ IH]; [done|].
  cbn [map_result map]. by rewrite Hx, IH.
Qed.

Lemma labelled_columns_ok (object_type : string)
  (object_cols : list (gmap string value)) :
  Forall (λ col, flagged col = true → is_Some (col !! "name")) object_cols →
  labelled_columns object_type object_cols =
    Ok (map (λ col, [("object_type", VStr object_type);
                     ("property_name", default VNone (col !! "name"))])
          (List.filter flagged object_cols)).
Proof.
  intros Hall. unfold labelled_columns. apply map_result_ok.
  apply Forall_forall. intros col Hin.
  apply list_elem_of_In, filter_In in Hin as [Hin Hflag].
  rewrite Forall_forall in Hall.
  destruct (Hall col) as [name Hname]; [by apply list_elem_of_In | done |].
  by rewrite Hname.
Qed.

Lemma get_properties_description_ok (properties_list : list dict) :
  Forall (λ d, is_Some (dict_get "object_type" d)
               ∧ is_Some (dict_get "property_name" d)) properties_list →
  get_properties_description properties_list
  = (map lookup_of properties_list, Returned).
Proof.
  induction 1 as [|d l [[ot Hot] [pn Hpn]] _ IH]; [done|].
  cbn [get_properties_description map]. rewrite Hot, Hpn, IH.
  cbn [fst snd]. unfold lookup_of. by rewrite Hot, Hpn.
Qed.

Lemma get_properties_description_stops (l1 l2 : list dict) (info : dict)
  (key : string) :
  Forall (λ d, is_Some (dict_get "object_type" d)
               ∧ is_Some (dict_get "property_name" d)) l1 →
  (dict_get "object_type" info = None ∧ key = "object_type")
  ∨ (is_Some (dict_get "object_type" info)
     ∧ dict_get "property_name" info = None ∧ key = "property_name") →
  get_properties_description (l1 ++ info :: l2)
  = (map lookup_of l1, Raised (KeyError key)).
Proof.
  intros Hl1 Hinfo.
  induction Hl1 as [|d l [[ot Hot] [pn Hpn]] _ IH].
  - cbn [app get_properties_description map].
    destruct Hinfo as [[-> ->]|([ot ->] & -> & ->)]; done.
  - cbn [app get_properties_description map]. rewrite Hot, Hpn, IH.
    cbn [fst snd]. unfold lookup_of. by rewrite Hot, Hpn.
Qed.

Lemma object_cols_default (key : string) :
  match config key with
  | Some (col :: cols) => col :: cols
  | _ => []
  end = default [] (config key).
Proof. by destruct (config key) as [[|col cols]|]. Qed.

End Labels.

(** X17: given a non-empty explicit list, [hubspot_properties] does not
    read the configuration; it looks up the labels of the entries in order
    and, at the first entry that lacks [object_type] or [property_name],
    raises [KeyError] after the lookups of the entries before it. *)
Theorem hubspot_properties_stops_at_malformed_entry
  (config : string → option (list (gmap string value)))
  (l1 l2 : list dict) (info : dict) (key : string) :
  Forall (λ d, is_Some (dict_get "object_type" d)
               ∧ is_Some (dict_get "property_name" d)) l1 →
  (dict_get "object_type" info = None ∧ key = "object_type")
  ∨ (is_Some (dict_get "object_type" info)
     ∧ dict_get "property_name" info = None ∧ key = "property_name") →
  hubspot_properties config (Some (l1 ++ info :: l2))
  = (map lookup_of l1, Raised (KeyError key)).
Proof.
  intros Hl1 Hinfo. unfold hubspot_properties.
  destruct (l1 ++ info :: l2) as [|d l] eqn:E.
  - by destruct l1.
  - rewrite <- E. by apply get_properties_description_stops.
Qed.

Lemma hubspot_properties_stops_at_malformed_entry_witness :
  hubspot_properties (λ _, None)
    (Some ([ [("object_type", VStr "deal"); ("property_name", VStr "dealstage")] ]
           ++ [("object_type", VStr "deal")] :: []))
  = ([(VStr "deal", VStr "dealstage")], Raised (KeyError "property_name")).
Proof.
  apply (hubspot_properties_stops_at_malformed_entry (λ _, None)
           [ [("object_type", VStr "deal"); ("property_name", VStr "dealstage")] ]
           [] [("object_type", VStr "deal")] "property_name").
  - repeat constructor; by eexists.
  - right. split_and!; [by eexists | reflexivity | reflexivity].
Defined.

(** X18: without an explicit list (absent or empty), and when every
    configured column marked with a true [add_property_label] has a name,
    the labels looked up are exactly those of the marked columns: object
    type by object type in the order of [OBJECT_TYPE_PLURAL], and in the
    configured order within an object type. *)
Theorem hubspot_properties_from_config
  (config : string → option (list (gmap string value)))
  (properties_list : option (list dict)) :
  (∀ key, Forall (λ col, flagged col = true → is_Some (col !! "name"))
            (default [] (config key))) →
  properties_list = None ∨ properties_list = Some [] →
  hubspot_properties config properties_list
  = (flat_map
       (λ sp : string * string,
          map (λ col, (VStr sp.1, default VNone (col !! "name")))
            (List.filter flagged
               (default [] (config (PROPERTIES_CONFIG_KEY sp.2)))))
       OBJECT_TYPE_PLURAL,
     Returned).
Proof.
  intros Hnames Hpl.
  set (f := λ object_type : string,
         match assoc_get object_type OBJECT_TYPE_PLURAL with
         | None => Raise (KeyError object_type)
         | Some plural =>
             let object_cols :=
               match config (PROPERTIES_CONFIG_KEY plural) with
               | Some (col :: cols) => col :: cols
               | _ => []
               end in
             labelled_columns object_type object_cols
         end).
  set (g := λ sp : string * string,
         map (λ col : gmap string value,
                [("object_type", VStr sp.1);
                 ("property_name", default VNone (col !! "name"))])
           (List.filter flagged
              (default [] (config (PROPERTIES_CONFIG_KEY sp.2))))).
  assert (Hcfg : ∀ objs : list (string * string),
            Forall (λ sp, assoc_get sp.1 OBJECT_TYPE_PLURAL = Some sp.2) objs →
            map_result f (map fst objs) = Ok (map g objs)).
  { induction 1 as [|sp objs Hsp _ IH]; [done|].
    cbn [map map_result]. rewrite IH.
    assert (Hf : f sp.1 = Ok (g sp)).
    { unfold f, g. rewrite Hsp. cbv zeta.
      by rewrite object_cols_default, labelled_columns_ok by apply Hnames. }
    by rewrite Hf. }
  assert (Hconfig : get_properties_with_labels_from_config config
            = Ok (concat (map g OBJECT_TYPE_PLURAL))).
  { change (get_properties_with_labels_from_config config)
      with (lists ← map_result f (map fst OBJECT_TYPE_PLURAL);
            Ok (concat lists)).
    rewrite Hcfg; [done|]. repeat constructor. }
  assert (Hrun : hubspot_properties config properties_list
            = match get_properties_with_labels_from_config config with
              | Ok l => get_properties_description l
              | Raise e => ([], Raised e)
              end)
    by by destruct Hpl as [-> | ->].
  rewrite Hrun, Hconfig. clear Hrun Hconfig Hcfg.
  rewrite get_properties_description_ok.
  - f_equal. generalize OBJECT_TYPE_PLURAL. intros objs.
    induction objs as [|sp objs IH]; [done|].
    change (map g (sp :: objs)) with (g sp :: map g objs).
    change (concat (g sp :: map g objs)) with (g sp ++ concat (map g objs)).
    rewrite map_app. cbn [flat_map]. f_equal; [|exact IH].
    unfold g. by rewrite map_map.
  - apply Forall_concat, Forall_fmap, Forall_true. intros sp.
    apply Forall_fmap, Forall_true. intros col. split; by eexists.
Qed.

Lemma hubspot_properties_from_config_witness :
  hubspot_properties
    (λ key, if decide (key = "sources.hubspot.deals.properties")
            then Some [ {[ "name" := VStr "amount" ]};
                        <[ "add_property_label" := VBool true ]>
                          {[ "name" := VStr "dealstage" ]} ]
            else None)
    None
  = ([(VStr "deal", VStr "dealstage")], Returned).
Proof.
  rewrite (hubspot_properties_from_config
             (λ key, if decide (key = "sources.hubspot.deals.properties")
                     then Some [ {[ "name" := VStr "amount" ]};
                                 <[ "add_property_label" := VBool true ]>
                                   {[ "name" := VStr "dealstage" ]} ]
                     else None)
             None).
  - by vm_compute.
  - intros key. case_decide; [|constructor].
    repeat constructor; intros _; by eexists.
  - by left.
Defined.

(** ** The settings tables and the resources made from them *)

(** X19: [OBJECT_TYPE_PLURAL] is the inverse of [OBJECT_TYPE_SINGULAR]: a
    plural name has a singular exactly when that singular has it as its
    plural. *)
Theorem plural_inverts_singular (plural singular : string) :
  assoc_get plural OBJECT_TYPE_SINGULAR = Some singular
  ↔ assoc_get singular OBJECT_TYPE_PLURAL = Some plural.
Proof.
  change OBJECT_TYPE_PLURAL
    with [ ("company", "companies"); ("contact", "contacts");
           ("deal", "deals"); ("ticket", "tickets"); ("product", "products");
           ("quote", "quotes"); ("owner", "owners") ].
  unfold OBJECT_TYPE_SINGULAR. split; intros H; cbn [assoc_get] in H;
    repeat (case_decide; [subst; injection H as <-; reflexivity|]);
    discriminate.
Qed.

Lemma listed_object_has_endpoint (entity : string) :
  entity ∈ ALL_OBJECTS → is_Some (CRM_OBJECT_ENDPOINTS !! entity).
Proof.
  change ALL_OBJECTS
    with ["company"; "contact"; "deal"; "ticket"; "product"; "quote"; "owner"].
  rewrite !elem_of_cons, elem_of_nil.
  intros [->|[->|[->|[->|[->|[->|[->|[]]]]]]]]; by eexists.
Qed.

(** X20: for each object type of [ALL_OBJECTS] the resource generator does
    not fail on the endpoint table: once the properties are resolved it
    makes its one request, or its two in soft-delete mode, and returns. *)
Theorem resource_template_for_listed_objects
  (api_pages : string → gmap string value → list page)
  (_get_property_names : string → list string) (entity : string)
  (properties : option (list (gmap string value))) (resolved : string)
  (include_custom_props soft_delete : bool) :
  entity ∈ ALL_OBJECTS →
  fetch_props _get_property_names entity properties include_custom_props
    = Ok resolved →
  let g := resource_template api_pages _get_property_names entity properties
             include_custom_props soft_delete in
  g.2 = Returned
  ∧ length (fetches g.1) = (if soft_delete then 2 else 1)
  ∧ Forall (λ r, CRM_OBJECT_ENDPOINTS !! entity = Some (req_endpoint r))
      (fetches g.1).
Proof.
  intros Hin Hres g. unfold g, resource_template, crm_objects. rewrite Hres.
  destruct (listed_object_has_endpoint entity Hin) as [endpoint Hep].
  split_and!.
  - by eapply fetch_data_for_properties_returns.
  - rewrite (fetch_data_for_properties_fetches _ _ _ endpoint) by done.
    by destruct soft_delete.
  - rewrite (fetch_data_for_properties_fetches _ _ _ endpoint) by done.
    destruct soft_delete; repeat constructor; done.
Qed.

Lemma resource_template_for_listed_objects_witness :
  let g := resource_template sample_api small_catalog "owner"
             (Some [ {[ "name" := VStr "email" ]} ]) false true in
  g.2 = Returned ∧ length (fetches g.1) = 2.
Proof.
  destruct (resource_template_for_listed_objects sample_api small_catalog
              "owner" (Some [ {[ "name" := VStr "email" ]} ]) "email" false
              true) as (Hret & Hlen & _).
  - change ALL_OBJECTS
      with ["company"; "contact"; "deal"; "ticket"; "product"; "quote";
            "owner"].
    rewrite !elem_of_cons. tauto.
  - by vm_compute.
  - split; [exact Hret | exact Hlen].
Defined.

Section StagesRows.

Context (api_pages : string → gmap string value → list page).

Lemma pivot_stages_properties_ids (data : page) (rows : list dict) :
  pivot_stages_properties data = Ok rows →
  Forall (λ row, ∃ v, dict_get "id" row = Some v ∧ v ≠ VNone) rows.
Proof.
  unfold pivot_stages_properties. revert rows.
  induction data as [|record data IH]; intros rows; cbn.
  - intros [= <-]. constructor.
  - destruct (pivot_record_total record) as (rows1 & -> & Hids). cbn.
    destruct (pivot_stages_properties_with _ _ data) as [rows2|]; cbn; [|done].
    intros [= <-]. apply Forall_app. split; [done | by apply IH].
Qed.

Lemma pivot_events_ids (t : list event) (e : ending) :
  Forall (Forall (λ row, ∃ v, dict_get "id" row = Some v ∧ v ≠ VNone))
    (yielded (pivot_events t e).1).
Proof.
  induction t as [|[r|data] t IH]; cbn [pivot_events].
  - constructor.
  - exact IH.
  - destruct (pivot_stages_properties data) as [rows|] eqn:E; [|constructor].
    cbn [fst]. change (yielded (EvYield ?p :: ?t)) with (p :: yielded t).
    constructor; [by eapply pivot_stages_properties_ids | exact IH].
Qed.

End StagesRows.

(** X21: every row yielded by the loop of [stages_timing], whatever the API
    returns, carries a non-null id. *)
Theorem stages_loop_rows_have_ids
  (api_pages : string → gmap string value → list page)
  (fuel : nat) (object_type : string) (soft_delete : bool)
  (props : string) (idx : nat) :
  Forall (λ row, ∃ v, dict_get "id" row = Some v ∧ v ≠ VNone)
    (records (stages_loop api_pages fuel object_type soft_delete props idx).1).
Proof.
  unfold records. apply Forall_concat.
  revert idx. induction fuel as [|fuel IH]; intros idx; cbn [stages_loop];
    destruct (idx <? String.length props); try by constructor.
  set (g := fetch_data_for_properties _ _ _ _).
  pose proof (pivot_events_ids g.1 g.2) as Hp.
  unfold gen_then. destruct (pivot_events g.1 g.2).2; [|done|done].
  cbn [fst]. rewrite yielded_app. apply Forall_app. split; [done | apply IH].
Qed.
